(** * Iterators++ : a shallow embedding of [iterators++.h]

    The header defines five iterator adaptors ([value_iterator],
    [func_iterator], [unary_func_iterator], [count_iterator],
    [mapping_iterator]) and a compile-time helper, [value_iterator_traits],
    that picks their difference type and iterator category.

    The compile-time part is embedded as functions over a universe of C++
    element types; the run-time part as functions over records, with
    machine integers as [Z] and their wrap-around written out. *)

From Stdlib Require Import ZArith Lia List Bool.
From stdpp Require Import base option gmap.

Local Open Scope Z_scope.

(* ===================================================================== *)
(** * The C++ types the header is instantiated with                       *)
(* ===================================================================== *)

Module Cxx.

(** The three usual data models; they fix [sizeof] of the built-in types. *)
Inductive data_model := ILP32 | LP64 | LLP64.

(** [std::is_integral] holds exactly of these. *)
Inductive integral :=
  | t_bool
  | t_char | t_signed_char | t_unsigned_char
  | t_wchar_t | t_char16_t | t_char32_t
  | t_short | t_unsigned_short
  | t_int | t_unsigned_int
  | t_long | t_unsigned_long
  | t_long_long | t_unsigned_long_long.

Inductive floating := t_float | t_double | t_long_double.

(** What a pointer points to: only a complete object type (of the given
    [sizeof]) allows pointer arithmetic. *)
Inductive pointee :=
  | to_object (size : Z)
  | to_void
  | to_function
  | to_incomplete.

(** The type of an operator expression, as far as [decltype] and
    [std::is_same<..., void>] can tell. *)
Inductive expr_type := yields_void | yields_value.

(** A user-defined type, described by the operator expressions that are
    well-formed on it ([up_counter], [up_down_counter], [zero_int] of the
    tests are of this kind). *)
Record class_type := {
  class_pre_inc    : bool;              (* ++x *)
  class_equal      : bool;              (* x == y *)
  class_pre_dec    : option expr_type;  (* decltype(--x), if well-formed *)
  class_add_assign : bool               (* x += d *)
}.

Inductive type :=
  | integral_type (i : integral)
  | floating_type (f : floating)
  | pointer_type (p : pointee)
  | user_type (c : class_type).

Definition integral_eqb (a b : integral) : bool :=
  match a, b with
  | t_bool, t_bool | t_char, t_char | t_signed_char, t_signed_char
  | t_unsigned_char, t_unsigned_char | t_wchar_t, t_wchar_t
  | t_char16_t, t_char16_t | t_char32_t, t_char32_t
  | t_short, t_short | t_unsigned_short, t_unsigned_short
  | t_int, t_int | t_unsigned_int, t_unsigned_int
  | t_long, t_long | t_unsigned_long, t_unsigned_long
  | t_long_long, t_long_long
  | t_unsigned_long_long, t_unsigned_long_long => true
  | _, _ => false
  end.

(** ** Type traits of <type_traits> *)

Definition is_integral (T : type) : bool :=
  match T with integral_type _ => true | _ => false end.

Definition is_pointer (T : type) : bool :=
  match T with pointer_type _ => true | _ => false end.

(** [std::is_arithmetic]: the numeric built-in types. *)
Definition is_arithmetic (T : type) : bool :=
  match T with integral_type _ | floating_type _ => true | _ => false end.

(** [sizeof(T) * CHAR_BIT]. *)
Definition bits (dm : data_model) (i : integral) : Z :=
  match i with
  | t_bool | t_char | t_signed_char | t_unsigned_char => 8
  | t_short | t_unsigned_short | t_char16_t => 16
  | t_int | t_unsigned_int | t_char32_t => 32
  | t_wchar_t => match dm with LLP64 => 16 | _ => 32 end
  | t_long | t_unsigned_long => match dm with LP64 => 64 | _ => 32 end
  | t_long_long | t_unsigned_long_long => 64
  end.

Definition pointer_bits (dm : data_model) : Z :=
  match dm with ILP32 => 32 | _ => 64 end.

(** The standard signed integer types. *)
Definition signed_integer_type (i : integral) : bool :=
  match i with
  | t_signed_char | t_short | t_int | t_long | t_long_long => true
  | _ => false
  end.

(** [std::is_signed] on the integral types ([char] and [wchar_t] are
    signed or not by platform). *)
Definition is_signed (dm : data_model) (i : integral) : bool :=
  match i with
  | t_char => true
  | t_wchar_t => match dm with LLP64 => false | _ => true end
  | _ => signed_integer_type i
  end.

(** [std::ptrdiff_t] and [std::size_t]. *)
Definition ptrdiff_t (dm : data_model) : integral :=
  match dm with ILP32 => t_int | LP64 => t_long | LLP64 => t_long_long end.

Definition size_t (dm : data_model) : integral :=
  match dm with
  | ILP32 => t_unsigned_int
  | LP64 => t_unsigned_long
  | LLP64 => t_unsigned_long_long
  end.

(** [std::make_signed]: a signed integer type stays, an unsigned one gives
    its signed counterpart, the character types give the signed integer
    type of least rank and equal size.  The standard requires the argument
    not to be [bool]: there is no result for it. *)
Definition make_signed (dm : data_model) (i : integral) : option integral :=
  match i with
  | t_bool => None
  | t_char | t_signed_char | t_unsigned_char => Some t_signed_char
  | t_short | t_unsigned_short | t_char16_t => Some t_short
  | t_int | t_unsigned_int | t_char32_t => Some t_int
  | t_wchar_t => Some (match dm with LLP64 => t_short | _ => t_int end)
  | t_long | t_unsigned_long => Some t_long
  | t_long_long | t_unsigned_long_long => Some t_long_long
  end.

Definition make_signed_t (dm : data_model) (T : type) : option integral :=
  match T with
  | integral_type i => make_signed dm i
  | _ => None
  end.

(** ** Which operator expressions are well-formed on a type (C++14) *)

Definition arithmetic_pointer (p : pointee) : bool :=
  match p with to_object _ => true | _ => false end.

(** [++x]. *)
Definition has_pre_inc (T : type) : bool :=
  match T with
  | integral_type _ | floating_type _ => true
  | pointer_type p => arithmetic_pointer p
  | user_type c => class_pre_inc c
  end.

(** [x == y]. *)
Definition has_equal (T : type) : bool :=
  match T with
  | user_type c => class_equal c
  | _ => true
  end.

(** [decltype(--x)]; [--] is ill-formed on [bool]. *)
Definition decltype_pre_dec (T : type) : option expr_type :=
  match T with
  | integral_type t_bool => None
  | integral_type _ | floating_type _ => Some yields_value
  | pointer_type p => if arithmetic_pointer p then Some yields_value else None
  | user_type c => class_pre_dec c
  end.

(** [--x] is well-formed. *)
Definition has_pre_dec (T : type) : bool :=
  match decltype_pre_dec T with Some _ => true | None => false end.

(** [x += d]. *)
Definition has_add_assign (T : type) : bool :=
  match T with
  | integral_type _ | floating_type _ => true
  | pointer_type p => arithmetic_pointer p
  | user_type c => class_add_assign c
  end.

(** ** The overload-set idiom

    The header declares, for each question it asks about [T], a set of
    static member functions and calls it with [nullptr]: a candidate taking
    [std::nullptr_t] is an exact match and wins over one taking [void*],
    but it takes part only when its [enable_if] condition holds. *)

Inductive parameter := by_void_ptr | by_nullptr_t.

Record overload (R : Type) := {
  takes   : parameter;
  enabled : bool;       (* the std::enable_if_t condition *)
  returns : R
}.
Arguments takes {R} _.
Arguments enabled {R} _.
Arguments returns {R} _.

Definition viable {R} (p : parameter) (o : overload R) : bool :=
  enabled o &&
  match p, takes o with
  | by_void_ptr, by_void_ptr | by_nullptr_t, by_nullptr_t => true
  | _, _ => false
  end.

(** Overload resolution of [f(nullptr)]: [None] when no candidate is viable
    or the best ones are ambiguous. *)
Definition call_with_nullptr {R} (set : list (overload R)) : option R :=
  match List.filter (viable by_nullptr_t) set with
  | [o] => Some (returns o)
  | _ :: _ :: _ => None
  | [] =>
      match List.filter (viable by_void_ptr) set with
      | [o] => Some (returns o)
      | _ => None
      end
  end.

(** ** Iterator category tags of <iterator> *)
Inductive iterator_tag :=
  | input_iterator_tag
  | output_iterator_tag
  | forward_iterator_tag
  | bidirectional_iterator_tag
  | random_access_iterator_tag.

Definition tag_eqb (a b : iterator_tag) : bool :=
  match a, b with
  | input_iterator_tag, input_iterator_tag
  | output_iterator_tag, output_iterator_tag
  | forward_iterator_tag, forward_iterator_tag
  | bidirectional_iterator_tag, bidirectional_iterator_tag
  | random_access_iterator_tag, random_access_iterator_tag => true
  | _, _ => false
  end.

End Cxx.

(* ===================================================================== *)
(** * [value_iterator_traits]                                             *)
(* ===================================================================== *)

Module value_iterator_traits.
Import Cxx.

(** [static std::ptrdiff_t __diff_type(void* p);]
    [template<..., enable_if_t<is_integral<_T>::value, int> = 0>
     static std::make_signed_t<_T> __diff_type(std::nullptr_t);] *)
Definition __diff_type (dm : data_model) (T : type)
  : list (overload (option integral)) :=
  [ {| takes := by_void_ptr; enabled := true;
       returns := Some (ptrdiff_t dm) |};
    {| takes := by_nullptr_t; enabled := is_integral T;
       returns := make_signed_t dm T |} ].

Definition __satisfies_rand_access (T : type) : list (overload bool) :=
  [ {| takes := by_void_ptr; enabled := true; returns := false |};
    {| takes := by_nullptr_t; enabled := is_integral T || is_pointer T;
       returns := true |} ].

(** The condition is [!std::is_same<decltype(--*(_T* )nullptr), void>::value]:
    it fails when [--x] is ill-formed and also when [--x] has type [void]. *)
Definition __has_prefix_dec (T : type) : list (overload bool) :=
  [ {| takes := by_void_ptr; enabled := true; returns := false |};
    {| takes := by_nullptr_t;
       enabled := match decltype_pre_dec T with
                  | Some yields_value => true
                  | Some yields_void => false
                  | None => false
                  end;
       returns := true |} ].

(** [typedef decltype(__diff_type(nullptr)) difference_type;] *)
Definition difference_type (dm : data_model) (T : type) : option integral :=
  mjoin (call_with_nullptr (__diff_type dm T)).

(** [typedef std::conditional_t<..., random_access_iterator_tag,
      std::conditional_t<..., bidirectional_iterator_tag,
      forward_iterator_tag>> iterator_category;] *)
Definition iterator_category (T : type) : option iterator_tag :=
  ra ← call_with_nullptr (__satisfies_rand_access T);
  dec ← call_with_nullptr (__has_prefix_dec T);
  Some (if ra : bool then random_access_iterator_tag
        else if dec : bool then bidirectional_iterator_tag
        else forward_iterator_tag).

(** The instantiated struct: both typedefs must name a type. *)
Record traits := {
  traits_difference_type   : integral;
  traits_iterator_category : iterator_tag
}.

Definition instantiate (dm : data_model) (T : type) : option traits :=
  d ← difference_type dm T;
  c ← iterator_category T;
  Some {| traits_difference_type := d; traits_iterator_category := c |}.

End value_iterator_traits.

(** An earlier revision of [value_iterator_traits], kept in the repository
    next to the tests that assert its choices: the difference type of an
    integral [T] is [T] itself, that of a type without random access is
    [void], and the category is read off the difference type. *)
Module earlier_value_iterator_traits.
Import Cxx.

Inductive difference := d_void | d_integral (i : integral).

(** [template<typename _T = T> static void __diff_type(void* p);]
    [template<..., enable_if_t<is_integral<_T>::value, int> = 0>
     static _T __diff_type(std::nullptr_t);]
    [template<..., enable_if_t<is_pointer<_T>::value, int> = 0>
     static std::ptrdiff_t __diff_type(std::nullptr_t);] *)
Definition __diff_type (dm : data_model) (T : type)
  : list (overload difference) :=
  [ {| takes := by_void_ptr; enabled := true; returns := d_void |};
    {| takes := by_nullptr_t; enabled := is_integral T;
       returns := match T with
                  | integral_type i => d_integral i
                  | _ => d_void
                  end |};
    {| takes := by_nullptr_t; enabled := is_pointer T;
       returns := d_integral (ptrdiff_t dm) |} ].

Definition __has_prefix_dec := value_iterator_traits.__has_prefix_dec.

Definition difference_type (dm : data_model) (T : type) : option difference :=
  call_with_nullptr (__diff_type dm T).

(** [std::conditional_t<!std::is_same<difference_type, void>::value,
      random_access_iterator_tag, ...>] *)
Definition iterator_category (dm : data_model) (T : type)
  : option iterator_tag :=
  d ← difference_type dm T;
  dec ← call_with_nullptr (__has_prefix_dec T);
  Some (match d with
        | d_integral _ => random_access_iterator_tag
        | d_void => if dec : bool then bidirectional_iterator_tag
                    else forward_iterator_tag
        end).

End earlier_value_iterator_traits.

(* ===================================================================== *)
(** * Built-in arithmetic on machine integers and pointers                *)
(* ===================================================================== *)

Module Machine.
Import Cxx.

Definition wrap_unsigned (w z : Z) : Z := z mod 2 ^ w.

Definition wrap_signed (w z : Z) : Z :=
  (z + 2 ^ (w - 1)) mod 2 ^ w - 2 ^ (w - 1).

(** Conversion of an integer value to an integral type: to [bool] by
    comparison with zero, otherwise modulo two to the width. *)
Definition convert (dm : data_model) (i : integral) (z : Z) : Z :=
  match i with
  | t_bool => if z =? 0 then 0 else 1
  | _ => if is_signed dm i then wrap_signed (bits dm i) z
         else wrap_unsigned (bits dm i) z
  end.

Definition min_value (dm : data_model) (i : integral) : Z :=
  match i with
  | t_bool => 0
  | _ => if is_signed dm i then - 2 ^ (bits dm i - 1) else 0
  end.

Definition max_value (dm : data_model) (i : integral) : Z :=
  match i with
  | t_bool => 1
  | _ => if is_signed dm i then 2 ^ (bits dm i - 1) - 1
         else 2 ^ (bits dm i) - 1
  end.

(** [z] is a value of type [i]. *)
Definition in_range (dm : data_model) (i : integral) (z : Z) : Prop :=
  min_value dm i <= z <= max_value dm i.

(** Integral promotion: a type of rank below [int], or a character type,
    is promoted to [int] when [int] holds all its values, as it does in the
    three data models for all but [char32_t], which goes to [unsigned int]. *)
Definition promote (dm : data_model) (i : integral) : integral :=
  match i with
  | t_bool | t_char | t_signed_char | t_unsigned_char
  | t_short | t_unsigned_short | t_char16_t => t_int
  | t_wchar_t => t_int
  | t_char32_t => t_unsigned_int
  | _ => i
  end.

(** Conversion rank of the promoted types. *)
Definition rank (i : integral) : Z :=
  match i with
  | t_int | t_unsigned_int => 3
  | t_long | t_unsigned_long => 4
  | t_long_long | t_unsigned_long_long => 5
  | _ => 0
  end.

Definition to_unsigned (i : integral) : integral :=
  match i with
  | t_int => t_unsigned_int
  | t_long => t_unsigned_long
  | t_long_long => t_unsigned_long_long
  | _ => i
  end.

(** The usual arithmetic conversions on two promoted integral types. *)
Definition common_type (dm : data_model) (a b : integral) : integral :=
  if integral_eqb a b then a
  else if Bool.eqb (is_signed dm a) (is_signed dm b)
  then (if rank a <? rank b then b else a)
  else
    let u := if is_signed dm a then b else a in
    let s := if is_signed dm a then a else b in
    if rank s <=? rank u then u
    else if bits dm u <? bits dm s then s
    else to_unsigned s.

(** [a op b] on integral operands of types [ta] and [tb]: both are brought
    to the common type, the result is of that type (an overflow wraps). *)
Definition binary (dm : data_model) (op : Z -> Z -> Z)
    (ta : integral) (a : Z) (tb : integral) (b : Z) : integral * Z :=
  let c := common_type dm (promote dm ta) (promote dm tb) in
  (c, convert dm c (op (convert dm c a) (convert dm c b))).

(** [x op= d]: the result of [x op d] converted back to the type of [x]. *)
Definition compound (dm : data_model) (op : Z -> Z -> Z)
    (tx : integral) (x : Z) (td : integral) (d : Z) : Z :=
  convert dm tx (snd (binary dm op tx x td d)).

(** A relational or equality operator on integral operands. *)
Definition compare (dm : data_model) (rel : Z -> Z -> bool)
    (ta : integral) (a : Z) (tb : integral) (b : Z) : bool :=
  let c := common_type dm (promote dm ta) (promote dm tb) in
  rel (convert dm c a) (convert dm c b).

(** Pointers are addresses; an offset counts elements of [size] bytes and
    a difference is the byte distance divided by [size]. *)
Definition pointer_add (dm : data_model) (size p d : Z) : Z :=
  wrap_unsigned (pointer_bits dm) (p + d * size).

Definition pointer_diff (dm : data_model) (size p q : Z) : Z :=
  Z.quot (wrap_signed (pointer_bits dm) (p - q)) size.

End Machine.

(* ===================================================================== *)
(** * What the iterators ask of their template arguments                  *)
(* ===================================================================== *)

(** The operators [value_iterator<T>] uses on its stored [T]. *)
Class Incrementable (T : Type) := {
  elem_pre_inc : T -> T;            (* ++data *)
  elem_equal   : T -> T -> bool     (* a.data == b.data *)
}.

Class Decrementable (T : Type) := {
  elem_pre_dec : T -> T             (* --data *)
}.

(** [D] is the difference type; [elem_difference] is [a.data - b.data] as
    returned, that is converted to [D]. *)
Class Offsettable (T D : Type) := {
  elem_add_assign    : T -> D -> T; (* data += d *)
  elem_sub_assign    : T -> D -> T; (* data -= d *)
  elem_difference    : T -> T -> D;
  elem_less          : T -> T -> bool;
  elem_less_equal    : T -> T -> bool;
  elem_greater       : T -> T -> bool;
  elem_greater_equal : T -> T -> bool
}.

(** The built-in operators on the scalar types that are granted random
    access: values are [Z], the difference type is [dt]. *)
Module Scalar.
Import Cxx Machine.

Inductive scalar :=
  | of_integral (i : integral)
  | of_pointer (size : Z).

Definition of_type (T : type) : option scalar :=
  match T with
  | integral_type i => Some (of_integral i)
  | pointer_type (to_object size) => Some (of_pointer size)
  | _ => None
  end.

Section Operators.
Variable dm : data_model.
Variable s : scalar.
Variable dt : integral.

Definition pre_inc (x : Z) : Z :=
  match s with
  | of_integral i => compound dm Z.add i x t_int 1
  | of_pointer size => pointer_add dm size x 1
  end.

Definition pre_dec (x : Z) : Z :=
  match s with
  | of_integral i => compound dm Z.sub i x t_int 1
  | of_pointer size => pointer_add dm size x (-1)
  end.

Definition add_assign (x d : Z) : Z :=
  match s with
  | of_integral i => compound dm Z.add i x dt d
  | of_pointer size => pointer_add dm size x d
  end.

Definition sub_assign (x d : Z) : Z :=
  match s with
  | of_integral i => compound dm Z.sub i x dt d
  | of_pointer size => pointer_add dm size x (- d)
  end.

Definition difference (a b : Z) : Z :=
  match s with
  | of_integral i => convert dm dt (snd (binary dm Z.sub i a i b))
  | of_pointer size => convert dm dt (pointer_diff dm size a b)
  end.

Definition relation (rel : Z -> Z -> bool) (a b : Z) : bool :=
  match s with
  | of_integral i => compare dm rel i a i b
  | of_pointer _ => rel a b
  end.

Definition incrementable : Incrementable Z :=
  {| elem_pre_inc := pre_inc; elem_equal := relation Z.eqb |}.

Definition decrementable : Decrementable Z :=
  {| elem_pre_dec := pre_dec |}.

Definition offsettable : Offsettable Z Z :=
  {| elem_add_assign := add_assign;
     elem_sub_assign := sub_assign;
     elem_difference := difference;
     elem_less := relation Z.ltb;
     elem_less_equal := relation Z.leb;
     elem_greater := relation Z.gtb;
     elem_greater_equal := relation Z.geb |}.
End Operators.

(** The offsets on which the built-in arithmetic is defined: any value of
    the difference type on an integer; on a pointer the byte offset has to
    be one that [std::ptrdiff_t] can hold (the two pointers are into one
    array). *)
Definition offset_defined (dm : data_model) (s : scalar) (dt : integral)
    (d : Z) : Prop :=
  in_range dm dt d /\
  match s with
  | of_integral _ => True
  | of_pointer size =>
      0 < size /\ in_range dm (ptrdiff_t dm) (d * size)
  end.

End Scalar.

(* ===================================================================== *)
(** * [value_iterator]                                                    *)
(* ===================================================================== *)

Module value_iterator.

Record value_iterator (T : Type) := { data : T }.
Arguments data {T} _.

Section Forward.
Context {T : Type} `{Inc : Incrementable T}.

(** [explicit value_iterator(const T &v) : data(v) {}] *)
Definition construct (v : T) : value_iterator T := {| data := v |}.

(** [T &operator*() & { return data; }] *)
Definition operator_star (it : value_iterator T) : T := data it.

(** [T *operator->() & { return std::addressof(data); }]: the pointee. *)
Definition operator_arrow (it : value_iterator T) : T := data it.

(** [operator++() { ++data; return *this; }] *)
Definition operator_pre_inc (it : value_iterator T) : value_iterator T :=
  {| data := elem_pre_inc (data it) |}.

(** [operator++(int) { value_iterator cpy( *this ); ++data; return cpy; }]:
    the returned copy and the iterator afterwards. *)
Definition operator_post_inc (it : value_iterator T)
  : value_iterator T * value_iterator T :=
  (it, {| data := elem_pre_inc (data it) |}).

Definition operator_equal (a b : value_iterator T) : bool :=
  elem_equal (data a) (data b).

Definition operator_not_equal (a b : value_iterator T) : bool :=
  negb (elem_equal (data a) (data b)).
End Forward.

Section Bidirectional.
Context {T : Type} `{Dec : Decrementable T}.

(** [operator--() { --data; return *this; }] *)
Definition operator_pre_dec (it : value_iterator T) : value_iterator T :=
  {| data := elem_pre_dec (data it) |}.

Definition operator_post_dec (it : value_iterator T)
  : value_iterator T * value_iterator T :=
  (it, {| data := elem_pre_dec (data it) |}).
End Bidirectional.

Section RandomAccess.
Context {T D : Type} `{Off : Offsettable T D}.

(** [T operator[](difference_type d) { T cpy(data); cpy += d; return cpy; }] *)
Definition operator_index (it : value_iterator T) (d : D) : T :=
  let cpy := data it in
  let cpy := elem_add_assign cpy d in
  cpy.

(** [operator+=(difference_type d) { data += d; return *this; }] *)
Definition operator_add_assign (it : value_iterator T) (d : D)
  : value_iterator T :=
  {| data := elem_add_assign (data it) d |}.

Definition operator_sub_assign (it : value_iterator T) (d : D)
  : value_iterator T :=
  {| data := elem_sub_assign (data it) d |}.

(** [operator+(const value_iterator &v, difference_type d)
    { value_iterator cpy(v); cpy += d; return cpy; }] *)
Definition operator_plus (v : value_iterator T) (d : D)
  : value_iterator T :=
  let cpy := {| data := data v |} in
  operator_add_assign cpy d.

(** [operator+(difference_type d, const value_iterator &v)] *)
Definition operator_plus_left (d : D) (v : value_iterator T)
  : value_iterator T :=
  let cpy := {| data := data v |} in
  operator_add_assign cpy d.

(** [operator-(const value_iterator &v, difference_type d)] *)
Definition operator_minus (v : value_iterator T) (d : D)
  : value_iterator T :=
  let cpy := {| data := data v |} in
  operator_sub_assign cpy d.

(** [difference_type operator-(a, b) { return a.data - b.data; }] *)
Definition operator_distance (a b : value_iterator T) : D :=
  elem_difference (data a) (data b).

Definition operator_less (a b : value_iterator T) : bool :=
  elem_less (data a) (data b).
Definition operator_less_equal (a b : value_iterator T) : bool :=
  elem_less_equal (data a) (data b).
Definition operator_greater (a b : value_iterator T) : bool :=
  elem_greater (data a) (data b).
Definition operator_greater_equal (a b : value_iterator T) : bool :=
  elem_greater_equal (data a) (data b).
End RandomAccess.

End value_iterator.

(* ===================================================================== *)
(** * What the adaptors ask of the iterator they wrap                     *)
(* ===================================================================== *)

(** [W] is the memory outside the iterator object: what a wrapped iterator
    points into, and what a stored callable may read and write.  An operator
    that changes the iterator returns its new state. *)
Class Iterator (W I A : Type) := {
  iter_star    : I -> W -> A;        (* *iter *)
  iter_arrow   : I -> W -> I * A;    (* iter.operator->(): the pointee *)
  iter_pre_inc : I -> W -> I * W;    (* ++iter *)
  iter_equal   : I -> I -> bool      (* a.iter == b.iter *)
}.

Class BidirectionalIterator (W I : Type) := {
  iter_pre_dec : I -> W -> I * W     (* --iter *)
}.

Class RandomAccessIterator (W I A : Type) := {
  iter_index      : I -> Z -> W -> A;      (* iter[d] *)
  iter_add_assign : I -> Z -> W -> I * W;  (* iter += d *)
  iter_sub_assign : I -> Z -> W -> I * W;  (* iter -= d *)
  iter_difference : I -> I -> Z;           (* a.iter - b.iter *)
  iter_less       : I -> I -> bool         (* a.iter < b.iter *)
}.

(** A function object called with no argument, [func()]: it returns a value
    and may change its own state and the memory outside. *)
Class Callable (W F V : Type) := {
  invoke : F -> W -> V * F * W
}.

(** [temp_mapped_value = *iter]: assignment to a [B] from an [A]. *)
Class AssignableFrom (B A : Type) := {
  assign_from : A -> B
}.

#[export] Instance assignable_same (A : Type) : AssignableFrom A A :=
  {| assign_from := fun a => a |}.

(** A [std::vector<int>::iterator]: an index into the vector's elements,
    which are the memory outside the iterator. *)
Module std_vector.

Definition iterator := nat.

Definition star (i : iterator) (v : list Z) : Z := nth i v 0.

#[export] Instance vector_iterator : Iterator (list Z) iterator Z :=
  {| iter_star := star;
     iter_arrow := fun i v => (i, star i v);
     iter_pre_inc := fun i v => (S i, v);
     iter_equal := Nat.eqb |}.

(** [*it = x] through an iterator [it] of the vector. *)
Definition store (i : iterator) (x : Z) (v : list Z) : list Z :=
  <[ i := x ]> v.

End std_vector.

(* ===================================================================== *)
(** * [assignable_func]                                                    *)
(* ===================================================================== *)

Module assignable_func.

Record assignable_func (F : Type) := { func : F }.
Arguments func {F} _.

Section Wrapper.
Context {F : Type}.

(** [assignable_func(const F &f) : func(f) {}] *)
Definition construct (f : F) : assignable_func F := {| func := f |}.

(** Both overloads of [assign], [func = f] and
    [func.~F(); new (&func) F(f)], leave a copy of [f] in [func]. *)
Definition assign (this : assignable_func F) (f : F) : assignable_func F :=
  {| func := f |}.

(** [operator=(const assignable_func &other) { assign(other.func); ... }] *)
Definition operator_assign (this other : assignable_func F)
  : assignable_func F :=
  assign this (func other).
End Wrapper.

(** [operator()(Args &&...args) { return func(args...); }] with no
    argument, on a callable with state. *)
Definition operator_call {W F V} `{Fn : Callable W F V}
    (this : assignable_func F) (w : W) : V * assignable_func F * W :=
  let '(v, f, w) := invoke (func this) w in (v, {| func := f |}, w).

(** The same with one argument, on a function without state. *)
Definition operator_call1 {A B : Type} (this : assignable_func (A -> B))
    (a : A) : B :=
  func this a.

End assignable_func.

(* ===================================================================== *)
(** * [func_iterator]                                                      *)
(* ===================================================================== *)

Module func_iterator.
Import assignable_func.

Record func_iterator (F V : Type) := {
  _value : V;                  (* the cached value, in the raw buffer *)
  func   : assignable_func F   (* the stored function *)
}.
Arguments _value {F V} _.
Arguments func {F V} _.

Section Operators.
Context {W F V : Type} `{Fn : Callable W F V}.

(** [explicit func_iterator(const F &f) : func(f)
    { new (_value) V(func()); }] *)
Definition construct (f : F) (w : W) : func_iterator F V * W :=
  let func := assignable_func.construct f in
  let '(v, func, w) := operator_call func w in
  ({| _value := v; func := func |}, w).

(** [func_iterator(const func_iterator &other) : func(other.func)
    { new (_value) V(other.value()); }] *)
Definition copy_construct (other : func_iterator F V) : func_iterator F V :=
  {| _value := _value other; func := func other |}.

(** [operator=(const func_iterator &other)
    { value() = other.value(); func = other.func; return *this; }] *)
Definition operator_assign (this other : func_iterator F V)
  : func_iterator F V :=
  let this := {| _value := _value other; func := func this |} in
  {| _value := _value this;
     func := assignable_func.operator_assign (func this) (func other) |}.

(** [V &operator*() & { return value(); }] *)
Definition operator_star (it : func_iterator F V) : V := _value it.

(** [V *operator->() & { return std::addressof(value()); }] *)
Definition operator_arrow (it : func_iterator F V) : V := _value it.

(** [operator++() { value() = func(); return *this; }] *)
Definition operator_pre_inc (it : func_iterator F V) (w : W)
  : func_iterator F V * W :=
  let '(v, func, w) := operator_call (func it) w in
  ({| _value := v; func := func |}, w).

(** [operator++(int) { func_iterator cpy( *this ); value() = func();
    return cpy; }]: the copy, the iterator afterwards, the memory. *)
Definition operator_post_inc (it : func_iterator F V) (w : W)
  : func_iterator F V * func_iterator F V * W :=
  let cpy := copy_construct it in
  let '(v, func, w) := operator_call (func it) w in
  (cpy, {| _value := v; func := func |}, w).

(** [n] increments in a row. *)
Fixpoint increments (n : nat) (it : func_iterator F V) (w : W)
  : func_iterator F V * W :=
  match n with
  | O => (it, w)
  | S n => let '(it, w) := operator_pre_inc it w in increments n it w
  end.

(** What the callable [f], started in memory [w], gives at its
    invocation number [n + 1], with its state and the memory then. *)
Fixpoint invocation (n : nat) (f : F) (w : W) : V * F * W :=
  match n with
  | O => invoke f w
  | S n => let '(_, f, w) := invoke f w in invocation n f w
  end.
End Operators.

(** [operator==(a, b) { return a.value() == b.value(); }] *)
Definition operator_equal {F V} (eqV : V -> V -> bool)
    (a b : func_iterator F V) : bool :=
  eqV (_value a) (_value b).

(** A callable that also counts how often it has been invoked. *)
Definition counted {W F V} `{Fn : Callable W F V} : Callable W (F * nat) V :=
  {| invoke := fun fk w =>
       let '(v, f, w) := invoke (fst fk) w in (v, (f, S (snd fk)), w) |}.

End func_iterator.

(* ===================================================================== *)
(** * [count_iterator]                                                     *)
(* ===================================================================== *)

Module count_iterator.
Import Cxx Machine.

(** [typedef std::make_signed_t<std::size_t> count_t;] *)
Definition count_t (dm : data_model) : integral :=
  default t_long_long (make_signed dm (size_t dm)).

Record count_iterator (I : Type) := {
  iter  : I;   (* the stored iterator *)
  count : Z    (* the stored counter, a count_t *)
}.
Arguments iter {I} _.
Arguments count {I} _.

(** [explicit count_iterator(const Iter &_iter, count_t _count = 0)] *)
Definition construct {I} (_iter : I) (_count : Z) : count_iterator I :=
  {| iter := _iter; count := _count |}.

Section Operators.
Variable dm : data_model.
(** [difference_type], that of the wrapped iterator. *)
Variable difference_type : integral.
Context {W I A : Type}.

Section Forward.
Context `{It : Iterator W I A}.

(** [operator*() & { return *iter; }] *)
Definition operator_star (c : count_iterator I) (w : W) : A :=
  iter_star (iter c) w.

(** [operator->() & { return iter.operator->(); }] *)
Definition operator_arrow (c : count_iterator I) (w : W)
  : count_iterator I * A :=
  let '(i, a) := iter_arrow (iter c) w in
  ({| iter := i; count := count c |}, a).

(** [operator++() { ++count; ++iter; return *this; }] *)
Definition operator_pre_inc (c : count_iterator I) (w : W)
  : count_iterator I * W :=
  let count := compound dm Z.add (count_t dm) (count c) t_int 1 in
  let '(iter, w) := iter_pre_inc (iter c) w in
  ({| iter := iter; count := count |}, w).

(** [operator++(int) { count_iterator cpy( *this ); ++*this;
    return cpy; }] *)
Definition operator_post_inc (c : count_iterator I) (w : W)
  : count_iterator I * count_iterator I * W :=
  let cpy := {| iter := iter c; count := count c |} in
  let '(c, w) := operator_pre_inc c w in
  (cpy, c, w).
End Forward.

Section Bidirectional.
Context `{Bi : BidirectionalIterator W I}.

(** [operator--() { --count; --iter; return *this; }] *)
Definition operator_pre_dec (c : count_iterator I) (w : W)
  : count_iterator I * W :=
  let count := compound dm Z.sub (count_t dm) (count c) t_int 1 in
  let '(iter, w) := iter_pre_dec (iter c) w in
  ({| iter := iter; count := count |}, w).

Definition operator_post_dec (c : count_iterator I) (w : W)
  : count_iterator I * count_iterator I * W :=
  let cpy := {| iter := iter c; count := count c |} in
  let '(c, w) := operator_pre_dec c w in
  (cpy, c, w).
End Bidirectional.

Section RandomAccess.
Context `{Ra : RandomAccessIterator W I A}.

(** [operator[](difference_type d) { return iter[d]; }] *)
Definition operator_index (c : count_iterator I) (d : Z) (w : W) : A :=
  iter_index (iter c) d w.

(** [operator+=(difference_type d) { count += d; iter += d;
    return *this; }] *)
Definition operator_add_assign (c : count_iterator I) (d : Z) (w : W)
  : count_iterator I * W :=
  let count := compound dm Z.add (count_t dm) (count c) difference_type d in
  let '(iter, w) := iter_add_assign (iter c) d w in
  ({| iter := iter; count := count |}, w).

(** [operator-=(difference_type d) { count -= d; iter -= d;
    return *this; }] *)
Definition operator_sub_assign (c : count_iterator I) (d : Z) (w : W)
  : count_iterator I * W :=
  let count := compound dm Z.sub (count_t dm) (count c) difference_type d in
  let '(iter, w) := iter_sub_assign (iter c) d w in
  ({| iter := iter; count := count |}, w).

(** [operator+(const count_iterator &v, difference_type d)
    { count_iterator cpy(v); cpy += d; return cpy; }] *)
Definition operator_plus (v : count_iterator I) (d : Z) (w : W)
  : count_iterator I * W :=
  let cpy := {| iter := iter v; count := count v |} in
  operator_add_assign cpy d w.

Definition operator_plus_left (d : Z) (v : count_iterator I) (w : W)
  : count_iterator I * W :=
  let cpy := {| iter := iter v; count := count v |} in
  operator_add_assign cpy d w.

Definition operator_minus (v : count_iterator I) (d : Z) (w : W)
  : count_iterator I * W :=
  let cpy := {| iter := iter v; count := count v |} in
  operator_sub_assign cpy d w.
End RandomAccess.

(** [difference_type operator-(a, b) { return a.count - b.count; }] *)
Definition operator_distance (a b : count_iterator I) : Z :=
  convert dm difference_type
    (snd (binary dm Z.sub (count_t dm) (count a) (count_t dm) (count b))).

(** [operator<(a, b) { return a.count < b.count; }] and the like. *)
Definition operator_less (a b : count_iterator I) : bool :=
  compare dm Z.ltb (count_t dm) (count a) (count_t dm) (count b).
Definition operator_less_equal (a b : count_iterator I) : bool :=
  compare dm Z.leb (count_t dm) (count a) (count_t dm) (count b).
Definition operator_greater (a b : count_iterator I) : bool :=
  compare dm Z.gtb (count_t dm) (count a) (count_t dm) (count b).
Definition operator_greater_equal (a b : count_iterator I) : bool :=
  compare dm Z.geb (count_t dm) (count a) (count_t dm) (count b).

(** [operator==(a, b) { return a.count == b.count; }] *)
Definition operator_equal (a b : count_iterator I) : bool :=
  compare dm Z.eqb (count_t dm) (count a) (count_t dm) (count b).
(** [operator!=(a, b) { return a.count != b.count; }] *)
Definition operator_not_equal (a b : count_iterator I) : bool :=
  compare dm (fun x y => negb (x =? y)) (count_t dm) (count a)
    (count_t dm) (count b).

(** The positional operations, to speak of sequences of them; [plus d]
    stands for [c = c + d], and the like. *)
Inductive move :=
  | pre_inc | post_inc | pre_dec | post_dec
  | add_assign (d : Z) | sub_assign (d : Z)
  | plus (d : Z) | plus_left (d : Z) | minus (d : Z).

Context `{It : Iterator W I A} `{Bi : BidirectionalIterator W I}
        `{Ra : RandomAccessIterator W I A}.

Definition step (m : move) (c : count_iterator I) (w : W)
  : count_iterator I * W :=
  match m with
  | pre_inc => operator_pre_inc c w
  | post_inc => let '(_, c, w) := operator_post_inc c w in (c, w)
  | pre_dec => operator_pre_dec c w
  | post_dec => let '(_, c, w) := operator_post_dec c w in (c, w)
  | add_assign d => operator_add_assign c d w
  | sub_assign d => operator_sub_assign c d w
  | plus d => operator_plus c d w
  | plus_left d => operator_plus_left d c w
  | minus d => operator_minus c d w
  end.

Fixpoint run (ms : list move) (c : count_iterator I) (w : W)
  : count_iterator I * W :=
  match ms with
  | [] => (c, w)
  | m :: ms => let '(c, w) := step m c w in run ms c w
  end.

(** What the same operation does to the wrapped iterator alone. *)
Definition inner_step (m : move) (i : I) (w : W) : I * W :=
  match m with
  | pre_inc | post_inc => iter_pre_inc i w
  | pre_dec | post_dec => iter_pre_dec i w
  | add_assign d | plus d | plus_left d => iter_add_assign i d w
  | sub_assign d | minus d => iter_sub_assign i d w
  end.

Fixpoint inner_run (ms : list move) (i : I) (w : W) : I * W :=
  match ms with
  | [] => (i, w)
  | m :: ms => let '(i, w) := inner_step m i w in inner_run ms i w
  end.

(** By how many positions an operation advances. *)
Definition advance (m : move) : Z :=
  match m with
  | pre_inc | post_inc => 1
  | pre_dec | post_dec => -1
  | add_assign d | plus d | plus_left d => d
  | sub_assign d | minus d => - d
  end.

Definition net_advance (ms : list move) : Z :=
  fold_right (fun m n => advance m + n) 0 ms.
End Operators.

End count_iterator.

(* ===================================================================== *)
(** * [mapping_iterator]                                                   *)
(* ===================================================================== *)

Module mapping_iterator.
Import assignable_func.

(** [A] is the type of [*iter], [B] is [value_t], the decayed result type
    of the function.  [temp_mapped_value] is default-initialised by every
    constructor: it holds nothing of interest until [operator->] assigns
    to it. *)
Record mapping_iterator (I A B : Type) := {
  iter              : I;
  func              : assignable_func (A -> B);
  temp_mapped_value : option B
}.
Arguments iter {I A B} _.
Arguments func {I A B} _.
Arguments temp_mapped_value {I A B} _.

Section Operators.
Context {W I A B : Type}.

(** [mapping_iterator(Iter _iter, const F &_func)
    : iter(std::move(_iter)), func(std::move(_func)) {}] *)
Definition construct (_iter : I) (_func : A -> B) : mapping_iterator I A B :=
  {| iter := _iter; func := assignable_func.construct _func;
     temp_mapped_value := None |}.

(** [mapping_iterator(const mapping_iterator &other)
    : iter(other.iter), func(other.func) {}] *)
Definition copy_construct (other : mapping_iterator I A B)
  : mapping_iterator I A B :=
  {| iter := iter other; func := func other; temp_mapped_value := None |}.

Section Forward.
Context `{It : Iterator W I A}.

(** [operator*() & { return func( *iter ); }] *)
Definition operator_star (m : mapping_iterator I A B) (w : W) : B :=
  operator_call1 (func m) (iter_star (iter m) w).

(** [value_t *operator->() & { temp_mapped_value = *iter;
    return std::addressof(temp_mapped_value); }]:
    the iterator afterwards; the returned address is that of its
    member [temp_mapped_value]. *)
Definition operator_arrow `{As : AssignableFrom B A}
    (m : mapping_iterator I A B) (w : W) : mapping_iterator I A B :=
  {| iter := iter m; func := func m;
     temp_mapped_value := Some (assign_from (iter_star (iter m) w)) |}.

(** What the pointer returned by [operator->] points to. *)
Definition pointee (m : mapping_iterator I A B) : option B :=
  temp_mapped_value m.

(** [operator++() { ++iter; return *this; }] *)
Definition operator_pre_inc (m : mapping_iterator I A B) (w : W)
  : mapping_iterator I A B * W :=
  let '(i, w) := iter_pre_inc (iter m) w in
  ({| iter := i; func := func m;
      temp_mapped_value := temp_mapped_value m |}, w).

(** [operator++(int) { mapping_iterator cpy( *this ); ++iter;
    return cpy; }] *)
Definition operator_post_inc (m : mapping_iterator I A B) (w : W)
  : mapping_iterator I A B * mapping_iterator I A B * W :=
  let cpy := copy_construct m in
  let '(m, w) := operator_pre_inc m w in
  (cpy, m, w).

(** [operator==(a, b) { return a.iter == b.iter; }] *)
Definition operator_equal (a b : mapping_iterator I A B) : bool :=
  iter_equal (iter a) (iter b).
End Forward.

Section Bidirectional.
Context `{Bi : BidirectionalIterator W I}.

(** [operator--() { --iter; return *this; }] *)
Definition operator_pre_dec (m : mapping_iterator I A B) (w : W)
  : mapping_iterator I A B * W :=
  let '(i, w) := iter_pre_dec (iter m) w in
  ({| iter := i; func := func m;
      temp_mapped_value := temp_mapped_value m |}, w).
End Bidirectional.

Section RandomAccess.
Context `{Ra : RandomAccessIterator W I A}.

(** [operator[](difference_type d) { return func(iter[d]); }] *)
Definition operator_index (m : mapping_iterator I A B) (d : Z) (w : W)
  : B :=
  operator_call1 (func m) (iter_index (iter m) d w).

(** [operator+=(difference_type d) { iter += d; return *this; }] *)
Definition operator_add_assign (m : mapping_iterator I A B) (d : Z)
    (w : W) : mapping_iterator I A B * W :=
  let '(i, w) := iter_add_assign (iter m) d w in
  ({| iter := i; func := func m;
      temp_mapped_value := temp_mapped_value m |}, w).

(** [operator-(a, b) { return a.iter - b.iter; }] *)
Definition operator_distance (a b : mapping_iterator I A B) : Z :=
  iter_difference (iter a) (iter b).

Definition operator_less (a b : mapping_iterator I A B) : bool :=
  iter_less (iter a) (iter b).
End RandomAccess.
End Operators.

#[export] Instance mapping_is_iterator {W I A B}
    `{It : Iterator W I A} `{As : AssignableFrom B A}
  : Iterator W (mapping_iterator I A B) B :=
  {| iter_star := operator_star;
     iter_arrow := fun m w =>
       let m := operator_arrow m w in
       (m, match pointee m with
           | Some b => b
           | None => operator_star m w
           end);
     iter_pre_inc := operator_pre_inc;
     iter_equal := operator_equal |}.

End mapping_iterator.

(** A [value_iterator] is an iterator for the adaptors; it points into
    nothing outside itself. *)
#[export] Instance value_is_iterator {W T} `{Inc : Incrementable T}
  : Iterator W (value_iterator.value_iterator T) T :=
  {| iter_star := fun it _ => value_iterator.operator_star it;
     iter_arrow := fun it _ => (it, value_iterator.operator_arrow it);
     iter_pre_inc := fun it w => (value_iterator.operator_pre_inc it, w);
     iter_equal := value_iterator.operator_equal |}.

#[export] Instance value_is_bidirectional {W T} `{Dec : Decrementable T}
  : BidirectionalIterator W (value_iterator.value_iterator T) :=
  {| iter_pre_dec := fun it w => (value_iterator.operator_pre_dec it, w) |}.

#[export] Instance value_is_random_access {W T} `{Off : Offsettable T Z}
  : RandomAccessIterator W (value_iterator.value_iterator T) T :=
  {| iter_index := fun it d _ => value_iterator.operator_index it d;
     iter_add_assign := fun it d w => (value_iterator.operator_add_assign it d, w);
     iter_sub_assign := fun it d w => (value_iterator.operator_sub_assign it d, w);
     iter_difference := value_iterator.operator_distance;
     iter_less := value_iterator.operator_less |}.

(* ===================================================================== *)
(** * Which operators an iterator type has                                *)
(* ===================================================================== *)

Module interface.
Import Cxx.

Inductive operation :=
  | op_star | op_arrow | op_pre_inc | op_post_inc | op_equal | op_not_equal
  | op_pre_dec | op_post_dec
  | op_index | op_add_assign | op_sub_assign
  | op_plus | op_plus_left | op_minus | op_distance
  | op_less | op_less_equal | op_greater | op_greater_equal.

(** The iterator types built from the header's templates; [std_iterator]
    stands for an iterator from elsewhere, of which only its category is
    known. *)
Inductive iterator :=
  | value_iterator (T : type)
  | func_iterator
  | unary_func_iterator
  | count_iterator (Iter : iterator)
  | mapping_iterator (Iter : iterator)
  | std_iterator (category : iterator_tag).

(** [std::iterator_traits<Iter>::iterator_category], read off the member
    typedef [iterator_category] of each class template. *)
Fixpoint iterator_category (dm : data_model) (it : iterator)
  : option iterator_tag :=
  match it with
  | value_iterator T =>
      value_iterator_traits.traits_iterator_category
        <$> value_iterator_traits.instantiate dm T
  | func_iterator | unary_func_iterator => Some forward_iterator_tag
  | count_iterator Iter | mapping_iterator Iter => iterator_category dm Iter
  | std_iterator category => Some category
  end.

(** [static constexpr bool rand_access =
      std::is_same<iterator_category, std::random_access_iterator_tag>::value;] *)
Definition rand_access (category : iterator_tag) : bool :=
  tag_eqb category random_access_iterator_tag.

(** [static constexpr bool bidirectional = rand_access ||
      std::is_same<iterator_category, std::bidirectional_iterator_tag>::value;] *)
Definition bidirectional (category : iterator_tag) : bool :=
  rand_access category || tag_eqb category bidirectional_iterator_tag.

(** The condition under which the three gated class templates declare an
    operator: none for the forward ones, [bidirectional] in the
    [enable_if] of the two decrements, [rand_access] in that of the rest. *)
Definition enable_if (category : iterator_tag) (o : operation) : bool :=
  match o with
  | op_star | op_arrow | op_pre_inc | op_post_inc
  | op_equal | op_not_equal => true
  | op_pre_dec | op_post_dec => bidirectional category
  | _ => rand_access category
  end.

(** What the iterator requirements promise of an iterator of a category. *)
Definition required (category : iterator_tag) (o : operation) : bool :=
  match category with
  | output_iterator_tag =>
      match o with
      | op_star | op_pre_inc | op_post_inc => true
      | _ => false
      end
  | _ => enable_if category o
  end.

(** Whether [o] can be called on an iterator of type [it]: overload
    resolution finds the operator only if the class declares it with a
    true [enable_if] condition. *)
Definition has_operator (dm : data_model) (it : iterator) (o : operation)
  : bool :=
  match it with
  | value_iterator _ | count_iterator _ | mapping_iterator _ =>
      match iterator_category dm it with
      | Some category => enable_if category o
      | None => false
      end
  | func_iterator | unary_func_iterator =>
      match o with
      | op_star | op_arrow | op_pre_inc | op_post_inc
      | op_equal | op_not_equal => true
      | _ => false
      end
  | std_iterator category => required category o
  end.

Inductive verdict := compiles | compile_error.

(** A call of [o] on an iterator of type [it], as the compiler sees it. *)
Definition call (dm : data_model) (it : iterator) (o : operation) : verdict :=
  if has_operator dm it o then compiles else compile_error.

(** The capability tiers and the least tier of each operator. *)
Inductive tier := Forward | Bidirectional | RandomAccess.

Definition tier_rank (t : tier) : nat :=
  match t with Forward => 0 | Bidirectional => 1 | RandomAccess => 2 end.

Definition tier_of (category : iterator_tag) : tier :=
  match category with
  | random_access_iterator_tag => RandomAccess
  | bidirectional_iterator_tag => Bidirectional
  | _ => Forward
  end.

Definition tier_needed (o : operation) : tier :=
  match o with
  | op_star | op_arrow | op_pre_inc | op_post_inc
  | op_equal | op_not_equal => Forward
  | op_pre_dec | op_post_dec => Bidirectional
  | _ => RandomAccess
  end.

End interface.

(* ===================================================================== *)
(** * Iterator objects in memory                                          *)
(* ===================================================================== *)

(** [func_iterator] objects at their addresses, to tell a copy from an
    alias: a member function works on the object at [this]. *)
Module objects.
Import func_iterator.

Section Heap.
Context {W F V : Type} `{Fn : Callable W F V}.

#[local] Abbreviation heap := (gmap positive (func_iterator F V)).

(** [func_iterator b(a);]: a new object, at an address not in use. *)
Definition copy_construct (other : positive) (h : heap)
  : option (positive * heap) :=
  o ← h !! other;
  let this := fresh (dom h) in
  Some (this, <[ this := func_iterator.copy_construct o ]> h).

(** [b = a;] *)
Definition operator_assign (this other : positive) (h : heap)
  : option heap :=
  t ← h !! this;
  o ← h !! other;
  Some (<[ this := func_iterator.operator_assign t o ]> h).

(** [++a;] *)
Definition operator_pre_inc (this : positive) (h : heap) (w : W)
  : option (heap * W) :=
  t ← h !! this;
  let '(t, w) := func_iterator.operator_pre_inc t w in
  Some (<[ this := t ]> h, w).

(** [a++;] *)
Definition operator_post_inc (this : positive) (h : heap) (w : W)
  : option (heap * W) :=
  t ← h !! this;
  let '(_, t, w) := func_iterator.operator_post_inc t w in
  Some (<[ this := t ]> h, w).

(** [n] increments of the object at [this], each prefix or postfix. *)
Fixpoint increments (postfix : list bool) (this : positive) (h : heap)
    (w : W) : option (heap * W) :=
  match postfix with
  | [] => Some (h, w)
  | p :: postfix =>
      '(h, w) ← (if p : bool then operator_post_inc this h w
                 else operator_pre_inc this h w);
      increments postfix this h w
  end.
End Heap.

End objects.

(* ===================================================================== *)
(** * Types, callables and cursors of the tests                            *)
(* ===================================================================== *)

Module tests.
Import Cxx Machine.

(** [struct up_counter]: [++] only. *)
Definition up_counter : type :=
  user_type {| class_pre_inc := true; class_equal := false;
               class_pre_dec := None; class_add_assign := false |}.

(** [struct up_down_counter]: [++] and [--], each returning a reference. *)
Definition up_down_counter : type :=
  user_type {| class_pre_inc := true; class_equal := false;
               class_pre_dec := Some yields_value;
               class_add_assign := false |}.

(** A class like [zero_int] that also has a prefix [--] returning [void]. *)
Definition void_decrement : type :=
  user_type {| class_pre_inc := true; class_equal := true;
               class_pre_dec := Some yields_void;
               class_add_assign := false |}.

(** The operators of [int], for [value_iterator<int>]. *)
Definition int_incrementable : Incrementable Z :=
  Scalar.incrementable LP64 (Scalar.of_integral t_int).
Definition int_decrementable : Decrementable Z :=
  Scalar.decrementable LP64 (Scalar.of_integral t_int).
Definition int_offsettable : Offsettable Z Z :=
  Scalar.offsettable LP64 (Scalar.of_integral t_int) t_int.

Definition int_iterator
  : Iterator unit (value_iterator.value_iterator Z) Z :=
  value_is_iterator (Inc := int_incrementable).
Definition int_bidirectional
  : BidirectionalIterator unit (value_iterator.value_iterator Z) :=
  value_is_bidirectional (Dec := int_decrementable).
Definition int_random_access
  : RandomAccessIterator unit (value_iterator.value_iterator Z) Z :=
  value_is_random_access (Off := int_offsettable).

(** [auto m_1 = make_mapping_iterator(value_iterator<int>(1),
                                      [](int v) { return 15; });] *)
Definition m_1
  : mapping_iterator.mapping_iterator (value_iterator.value_iterator Z) Z Z :=
  mapping_iterator.construct (value_iterator.construct 1) (fun v => 15).

(** [[](int v) { return v * v; }] *)
Definition square (v : Z) : Z := snd (binary LP64 Z.mul t_int v t_int v).

(** [[n = 0]() mutable { ++n; return n * n; }] *)
Definition squares : Callable unit Z Z :=
  {| invoke := fun n w =>
       let n := compound LP64 Z.add t_int n t_int 1 in
       (snd (binary LP64 Z.mul t_int n t_int n), n, w) |}.

(** [[n = 0]() mutable { return n++; }], of [counter_1] and [counter_2]. *)
Definition counter : Callable unit Z Z :=
  {| invoke := fun n w => (n, compound LP64 Z.add t_int n t_int 1, w) |}.

End tests.

(* ===================================================================== *)
(** * [unary_func_iterator]                                                *)
(* ===================================================================== *)

(** A function object called on the cached value by reference,
    [func(value)]: it may change the value, its own state and the memory
    outside. *)
Class UnaryCallable (W F V : Type) := {
  invoke_on : F -> V -> W -> V * F * W
}.

Module unary_func_iterator.

Record unary_func_iterator (F V : Type) := {
  value : V;                                   (* the cached value *)
  func  : assignable_func.assignable_func F    (* the stored function *)
}.
Arguments value {F V} _.
Arguments func {F V} _.

Section Operators.
Context {W F V : Type} `{Un : UnaryCallable W F V}.

(** [explicit unary_func_iterator(const F &f, Args &&...args)
    : value(std::forward<Args>(args)...), func(f) {}], with the initial
    value the arguments construct. *)
Definition construct (f : F) (v : V) : unary_func_iterator F V :=
  {| value := v; func := assignable_func.construct f |}.

(** [V &operator*() & { return value; }] *)
Definition operator_star (it : unary_func_iterator F V) : V := value it.

(** [operator++() { func(value); return *this; }] *)
Definition operator_pre_inc (it : unary_func_iterator F V) (w : W)
  : unary_func_iterator F V * W :=
  let '(v, f, w) := invoke_on (assignable_func.func (func it)) (value it) w in
  ({| value := v; func := {| assignable_func.func := f |} |}, w).

(** [operator++(int) { unary_func_iterator cpy( *this ); func(value);
    return cpy; }] *)
Definition operator_post_inc (it : unary_func_iterator F V) (w : W)
  : unary_func_iterator F V * unary_func_iterator F V * W :=
  let cpy := {| value := value it; func := func it |} in
  let '(it, w) := operator_pre_inc it w in
  (cpy, it, w).

Fixpoint increments (n : nat) (it : unary_func_iterator F V) (w : W)
  : unary_func_iterator F V * W :=
  match n with
  | O => (it, w)
  | S n => let '(it, w) := operator_pre_inc it w in increments n it w
  end.

(** The callable [f] applied [n] times in a row, from the value [v]. *)
Fixpoint applications (n : nat) (f : F) (v : V) (w : W) : V * F * W :=
  match n with
  | O => (v, f, w)
  | S n => let '(v, f, w) := invoke_on f v w in applications n f v w
  end.
End Operators.

(** [operator==(a, b) { return a.value == b.value; }] *)
Definition operator_equal {F V} (eqV : V -> V -> bool)
    (a b : unary_func_iterator F V) : bool :=
  eqV (value a) (value b).

End unary_func_iterator.

(* ===================================================================== *)
(** * The adaptors as iterators, and the loops of <algorithm>             *)
(* ===================================================================== *)

(** A [count_iterator] is an iterator for the adaptors and the algorithms. *)
Definition count_is_iterator (dm : Cxx.data_model) {W I A : Type}
    `{It : Iterator W I A} : Iterator W (count_iterator.count_iterator I) A :=
  {| iter_star := count_iterator.operator_star;
     iter_arrow := count_iterator.operator_arrow;
     iter_pre_inc := count_iterator.operator_pre_inc dm;
     iter_equal := count_iterator.operator_equal dm |}.

(** So is a [func_iterator], given [==] on its values. *)
Definition func_is_iterator {W F V : Type} `{Fn : Callable W F V}
    (eqV : V -> V -> bool) : Iterator W (func_iterator.func_iterator F V) V :=
  {| iter_star := fun it _ => func_iterator.operator_star it;
     iter_arrow := fun it _ => (it, func_iterator.operator_arrow it);
     iter_pre_inc := func_iterator.operator_pre_inc;
     iter_equal := func_iterator.operator_equal eqV |}.

(** And a [unary_func_iterator]; [operator->] is the address of the
    cached value. *)
Definition unary_is_iterator {W F V : Type} `{Un : UnaryCallable W F V}
    (eqV : V -> V -> bool)
  : Iterator W (unary_func_iterator.unary_func_iterator F V) V :=
  {| iter_star := fun it _ => unary_func_iterator.operator_star it;
     iter_arrow := fun it _ => (it, unary_func_iterator.value it);
     iter_pre_inc := unary_func_iterator.operator_pre_inc;
     iter_equal := unary_func_iterator.operator_equal eqV |}.

Module std_algorithm.

Section Loops.
Context {W I A : Type} `{It : Iterator W I A}.

(** [for (; first != last; ++first) f( *first );], as [std::for_each] and
    a range-based [for] run it, with the values passed to [f] in order.
    [first != last] is the negation of [first == last] on the iterators
    here.  [None]: not finished after [fuel] tests of the condition. *)
Fixpoint for_each (fuel : nat) (first last : I) (w : W)
  : option (list A * W) :=
  match fuel with
  | O => None
  | S fuel =>
      if iter_equal first last then Some ([], w)
      else
        let a := iter_star first w in
        let '(first, w) := iter_pre_inc first w in
        '(l, w) ← for_each fuel first last w;
        Some (a :: l, w)
  end.

(** [for (; first != last; ++first) init = op(init, *first); return init;],
    [std::accumulate]. *)
Fixpoint accumulate {T : Type} (fuel : nat) (first last : I) (init : T)
    (op : T -> A -> T) (w : W) : option (T * W) :=
  match fuel with
  | O => None
  | S fuel =>
      if iter_equal first last then Some (init, w)
      else
        let init := op init (iter_star first w) in
        let '(first, w) := iter_pre_inc first w in
        accumulate fuel first last init op w
  end.

(** The first [n] values an iterator yields: it is dereferenced and
    incremented [n] times. *)
Fixpoint elements (n : nat) (first : I) (w : W) : list A * W :=
  match n with
  | O => ([], w)
  | S n =>
      let a := iter_star first w in
      let '(first, w) := iter_pre_inc first w in
      let '(l, w) := elements n first w in
      (a :: l, w)
  end.
End Loops.

End std_algorithm.

(* ===================================================================== *)
(** * [iterator_range] and the functions that make ranges                 *)
(* ===================================================================== *)

Module iterator_range.
Import Cxx Machine.

Record iterator_range (IterBegin IterEnd : Type) := {
  _begin : IterBegin;
  _end   : IterEnd
}.
Arguments _begin {IterBegin IterEnd} _.
Arguments _end {IterBegin IterEnd} _.

(** [IterBegin begin() const& { return _begin; }] and
    [IterEnd end() const& { return _end; }] *)
Definition begin {IB IE} (r : iterator_range IB IE) : IB := _begin r.
Definition end_ {IB IE} (r : iterator_range IB IE) : IE := _end r.

(** [map(const F &func) const& { return { { _begin, func }, { _end, func } }; }] *)
Definition map {IB IE A B : Type} (func : A -> B) (r : iterator_range IB IE)
  : iterator_range (mapping_iterator.mapping_iterator IB A B)
                   (mapping_iterator.mapping_iterator IE A B) :=
  {| _begin := mapping_iterator.construct (_begin r) func;
     _end := mapping_iterator.construct (_end r) func |}.

(** [make_iterator_range(IterBegin begin, IterEnd end) { return {begin, end}; }] *)
Definition make_iterator_range {IB IE} (b : IB) (e : IE)
  : iterator_range IB IE :=
  {| _begin := b; _end := e |}.

(** [make_value_range(const T &begin, const T &end)
    { return { value_iterator<T>(begin), value_iterator<T>(end) }; }] *)
Definition make_value_range {T : Type} (b e : T)
  : iterator_range (value_iterator.value_iterator T)
                   (value_iterator.value_iterator T) :=
  {| _begin := value_iterator.construct b;
     _end := value_iterator.construct e |}.

(** [make_count_range(const Iter &begin, std::size_t count)
    { return { count_iterator<Iter>(begin, 0),
               count_iterator<Iter>(begin, count) }; }]:
    [count] is a [std::size_t] and the constructor takes a [count_t]. *)
Definition make_count_range (dm : data_model) {I : Type} (b : I) (count : Z)
  : iterator_range (count_iterator.count_iterator I)
                   (count_iterator.count_iterator I) :=
  {| _begin := count_iterator.construct b 0;
     _end := count_iterator.construct b
               (convert dm (count_iterator.count_t dm) count) |}.

(** [map_range(const iterator_range<Iter, Iter> &range, const F &func)
    { return { mapping_iterator(range.begin(), func),
               mapping_iterator(range.end(), func) }; }] *)
Definition map_range {I A B : Type} (range : iterator_range I I)
    (func : A -> B)
  : iterator_range (mapping_iterator.mapping_iterator I A B)
                   (mapping_iterator.mapping_iterator I A B) :=
  {| _begin := mapping_iterator.construct (begin range) func;
     _end := mapping_iterator.construct (end_ range) func |}.

Section Algorithms.
Context {W I A : Type} `{It : Iterator W I A}.

(** [for_each(UnaryFunction &&f) & { return std::for_each(_begin, _end, f); }] *)
Definition for_each (fuel : nat) (r : iterator_range I I) (w : W)
  : option (list A * W) :=
  std_algorithm.for_each fuel (_begin r) (_end r) w.

(** [accumulate(T &&init, BinaryOperation &&op) &
    { return std::accumulate(_begin, _end, init, op); }] *)
Definition accumulate {T : Type} (fuel : nat) (r : iterator_range I I)
    (init : T) (op : T -> A -> T) (w : W) : option (T * W) :=
  std_algorithm.accumulate fuel (_begin r) (_end r) init op w.
End Algorithms.

End iterator_range.

(** The values a [value_iterator] over a scalar type can hold: the values
    of the integral type (there is no [value_iterator<bool>]), or the
    addresses. *)
Definition scalar_value (dm : Cxx.data_model) (s : Scalar.scalar) (x : Z)
  : Prop :=
  match s with
  | Scalar.of_integral i => i <> Cxx.t_bool /\ Machine.in_range dm i x
  | Scalar.of_pointer size => 0 <= x < 2 ^ Cxx.pointer_bits dm
  end.

(** [[](int &v) { ++v; }], the function of [make_unary_func_iterator<int>]
    in the tests. *)
Definition increment : UnaryCallable unit unit Z :=
  {| invoke_on := fun f v w =>
       (Machine.compound Cxx.LP64 Z.add Cxx.t_int v Cxx.t_int 1, f, w) |}.

(** [init + *first] on [int], the step of [std::accumulate] without a
    binary operation when [T] is [int]. *)
Definition int_plus (init v : Z) : Z :=
  snd (Machine.binary Cxx.LP64 Z.add Cxx.t_int init Cxx.t_int v).

(* ===================================================================== *)
(** * Theorems                                                             *)
(* ===================================================================== *)

Import Cxx Machine tests.

(** ** Modular arithmetic behind the conversions *)

Section WrapLemmas.

Lemma pow2_pos (w : Z) : 0 <= w -> 0 < 2 ^ w.
Proof. intros. apply Z.pow_pos_nonneg; lia. Qed.

Lemma pow2_divide (w k : Z) : 0 <= w <= k -> (2 ^ w | 2 ^ k).
Proof.
  intros Hwk. exists (2 ^ (k - w)).
  rewrite <- Z.pow_add_r by lia. f_equal. lia.
Qed.

Lemma mod_mod_pow2 (w k z : Z) :
  0 <= w <= k -> (z mod 2 ^ k) mod 2 ^ w = z mod 2 ^ w.
Proof.
  intros Hwk. apply Z.mod_mod_divide, pow2_divide, Hwk.
Qed.

Lemma wrap_unsigned_eqm (w k z : Z) :
  0 <= w <= k -> wrap_unsigned k z mod 2 ^ w = z mod 2 ^ w.
Proof. apply mod_mod_pow2. Qed.

Lemma wrap_signed_eqm (w k z : Z) :
  0 <= w <= k -> wrap_signed k z mod 2 ^ w = z mod 2 ^ w.
Proof.
  intros Hwk. unfold wrap_signed.
  rewrite Zminus_mod, mod_mod_pow2 by assumption.
  rewrite <- Zminus_mod. f_equal. lia.
Qed.

Lemma wrap_signed_cong (w a b : Z) :
  a mod 2 ^ w = b mod 2 ^ w -> wrap_signed w a = wrap_signed w b.
Proof.
  intros Hab. unfold wrap_signed.
  rewrite (Zplus_mod a), (Zplus_mod b), Hab. reflexivity.
Qed.

Lemma wrap_signed_small (w d : Z) :
  0 < w -> - 2 ^ (w - 1) <= d < 2 ^ (w - 1) -> wrap_signed w d = d.
Proof.
  intros Hw Hd. unfold wrap_signed.
  assert (2 ^ w = 2 * 2 ^ (w - 1)) as Hpow.
  { rewrite <- Z.pow_succ_r by lia. f_equal. lia. }
  rewrite Z.mod_small by lia. lia.
Qed.

Lemma wrap_signed_range (w z : Z) :
  0 < w -> - 2 ^ (w - 1) <= wrap_signed w z < 2 ^ (w - 1).
Proof.
  intros Hw. unfold wrap_signed.
  assert (2 ^ w = 2 * 2 ^ (w - 1)) as Hpow.
  { rewrite <- Z.pow_succ_r by lia. f_equal. lia. }
  assert (0 < 2 ^ (w - 1)) by (apply pow2_pos; lia).
  pose proof (Z.mod_pos_bound (z + 2 ^ (w - 1)) (2 ^ w)). lia.
Qed.

Lemma bits_pos (dm : data_model) (i : integral) : 0 < bits dm i.
Proof. destruct dm, i; reflexivity. Qed.

(** A conversion keeps the value modulo two to any width up to that of
    the target. *)
Lemma convert_eqm (dm : data_model) (i : integral) (w z : Z) :
  i <> t_bool -> 0 <= w <= bits dm i ->
  convert dm i z mod 2 ^ w = z mod 2 ^ w.
Proof.
  intros Hi Hw. unfold convert.
  destruct i; try congruence;
    destruct (is_signed dm _);
    auto using wrap_signed_eqm, wrap_unsigned_eqm.
Qed.

Lemma convert_cong (dm : data_model) (i : integral) (a b : Z) :
  i <> t_bool -> a mod 2 ^ bits dm i = b mod 2 ^ bits dm i ->
  convert dm i a = convert dm i b.
Proof.
  intros Hi Hab. unfold convert.
  destruct i; try congruence;
    destruct (is_signed dm _);
    auto using wrap_signed_cong.
Qed.

Lemma convert_in_range (dm : data_model) (i : integral) (z : Z) :
  in_range dm i z -> convert dm i z = z.
Proof.
  unfold in_range, min_value, max_value, convert. intros Hz.
  pose proof (bits_pos dm i) as Hb.
  destruct i;
    try (destruct (is_signed dm _);
         [ apply wrap_signed_small; lia
         | apply Z.mod_small; lia ]).
  destruct (Z.eqb_spec z 0); lia.
Qed.

Lemma convert_signed_range (dm : data_model) (i : integral) (z : Z) :
  signed_integer_type i = true ->
  - 2 ^ (bits dm i - 1) <= convert dm i z < 2 ^ (bits dm i - 1).
Proof.
  intros Hi. pose proof (bits_pos dm i).
  destruct i; try discriminate; apply wrap_signed_range; assumption.
Qed.

Lemma signed_in_range (dm : data_model) (i : integral) (z : Z) :
  signed_integer_type i = true ->
  in_range dm i z <-> - 2 ^ (bits dm i - 1) <= z < 2 ^ (bits dm i - 1).
Proof.
  intros Hi. unfold in_range, min_value, max_value.
  destruct i; try discriminate; cbn; lia.
Qed.

(** The common type of two promoted operands is at least an [int], and
    as wide as either operand. *)
Lemma common_type_not_bool (dm : data_model) (ta tb : integral) :
  common_type dm (promote dm ta) (promote dm tb) <> t_bool.
Proof. destruct dm, ta, tb; discriminate. Qed.

Lemma common_type_bits_l (dm : data_model) (ta tb : integral) :
  bits dm ta <= bits dm (common_type dm (promote dm ta) (promote dm tb)).
Proof. destruct dm, ta, tb; discriminate. Qed.

Lemma common_type_bits_r (dm : data_model) (ta tb : integral) :
  bits dm tb <= bits dm (common_type dm (promote dm ta) (promote dm tb)).
Proof. destruct dm, ta, tb; discriminate. Qed.

(** Sums and differences computed by [binary] are right modulo two to
    any width up to that of the common type. *)
Lemma binary_add_eqm (dm : data_model) (ta tb : integral) (a b w : Z) :
  0 <= w <= bits dm (common_type dm (promote dm ta) (promote dm tb)) ->
  snd (binary dm Z.add ta a tb b) mod 2 ^ w = (a + b) mod 2 ^ w.
Proof.
  intros Hw. pose proof (common_type_not_bool dm ta tb) as Hc.
  unfold binary. cbn [snd].
  rewrite convert_eqm by assumption.
  rewrite Zplus_mod, !convert_eqm by assumption.
  rewrite <- Zplus_mod. reflexivity.
Qed.

Lemma binary_sub_eqm (dm : data_model) (ta tb : integral) (a b w : Z) :
  0 <= w <= bits dm (common_type dm (promote dm ta) (promote dm tb)) ->
  snd (binary dm Z.sub ta a tb b) mod 2 ^ w = (a - b) mod 2 ^ w.
Proof.
  intros Hw. pose proof (common_type_not_bool dm ta tb) as Hc.
  unfold binary. cbn [snd].
  rewrite convert_eqm by assumption.
  rewrite Zminus_mod, !convert_eqm by assumption.
  rewrite <- Zminus_mod. reflexivity.
Qed.

Lemma compound_add (dm : data_model) (tx td : integral) (x d : Z) :
  tx <> t_bool ->
  compound dm Z.add tx x td d = convert dm tx (x + d).
Proof.
  intros Hx. unfold compound. apply convert_cong; [assumption|].
  apply binary_add_eqm. pose proof (bits_pos dm tx).
  pose proof (common_type_bits_l dm tx td). lia.
Qed.

Lemma compound_sub (dm : data_model) (tx td : integral) (x d : Z) :
  tx <> t_bool ->
  compound dm Z.sub tx x td d = convert dm tx (x - d).
Proof.
  intros Hx. unfold compound. apply convert_cong; [assumption|].
  apply binary_sub_eqm. pose proof (bits_pos dm tx).
  pose proof (common_type_bits_l dm tx td). lia.
Qed.

End WrapLemmas.

(** ** [value_iterator_traits] *)

Section Traits.
Import value_iterator_traits.

Lemma difference_type_integral (dm : data_model) (i : integral) :
  difference_type dm (integral_type i) = make_signed dm i.
Proof. reflexivity. Qed.

Lemma difference_type_other (dm : data_model) (T : type) :
  is_integral T = false -> difference_type dm T = Some (ptrdiff_t dm).
Proof. destruct T; [discriminate | reflexivity..]. Qed.

Lemma make_signed_spec (dm : data_model) (i D : integral) :
  make_signed dm i = Some D ->
  i <> t_bool /\ D <> t_bool /\ signed_integer_type D = true /\
  bits dm D = bits dm i.
Proof.
  destruct dm, i; cbn; intros [= <-]; repeat split; discriminate.
Qed.

Lemma ptrdiff_t_spec (dm : data_model) :
  signed_integer_type (ptrdiff_t dm) = true /\
  bits dm (ptrdiff_t dm) = pointer_bits dm.
Proof. destruct dm; split; reflexivity. Qed.

(** The category the code deduces, in one case analysis. *)
Lemma iterator_category_cases (T : type) :
  iterator_category T =
  Some (if is_integral T || is_pointer T then random_access_iterator_tag
        else match decltype_pre_dec T with
             | Some yields_value => bidirectional_iterator_tag
             | _ => forward_iterator_tag
             end).
Proof.
  destruct T as [i | f | p | c];
    [ destruct i | | destruct p | ]; try reflexivity.
  unfold iterator_category, __has_prefix_dec, decltype_pre_dec. cbn.
  destruct (class_pre_dec c) as [[]|]; reflexivity.
Qed.

(** A built-in type that is integral or a pointer and has [++] has [+=]
    as well: probing [+=] would not change the category. *)
Lemma add_assign_of_pre_inc (T : type) :
  is_integral T || is_pointer T = true -> has_pre_inc T = true ->
  has_add_assign T = true.
Proof. destruct T; cbn; congruence. Qed.

(** A floating-point type has every operator asked for and is numeric,
    yet it is not integral: its iterator is bidirectional. *)
Lemma iterator_category_double :
  is_arithmetic (floating_type t_double) = true /\
  has_add_assign (floating_type t_double) = true /\
  iterator_category (floating_type t_double) = Some bidirectional_iterator_tag.
Proof. repeat split. Qed.

(** The earlier revision names an unsigned difference type for an
    unsigned [T], as its test asserts with
    [is_same<value_iterator<unsigned short>::difference_type, unsigned short>]. *)
Lemma earlier_difference_type_unsigned_short (dm : data_model) :
  earlier_value_iterator_traits.difference_type dm
    (integral_type t_unsigned_short)
  = Some (earlier_value_iterator_traits.d_integral t_unsigned_short).
Proof. reflexivity. Qed.

Lemma earlier_iterator_category_cases (dm : data_model) (T : type) :
  earlier_value_iterator_traits.iterator_category dm T = iterator_category T.
Proof.
  destruct T as [i | f | p | c];
    [ destruct i | | destruct p | ]; reflexivity.
Qed.

(** C3. For every element type that [value_iterator_traits] grants the
    random-access category, the deduced difference type is a signed
    integer type: for an integral element type it is
    [std::make_signed] of it, of equal width; for a pointer element type
    it is [std::ptrdiff_t], of the width of a pointer. *)
Theorem C3_difference_type_signed
    (dm : data_model) (T : type) (tr : traits) :
  instantiate dm T = Some tr ->
  traits_iterator_category tr = random_access_iterator_tag ->
  signed_integer_type (traits_difference_type tr) = true /\
  (forall i, T = integral_type i ->
     make_signed dm i = Some (traits_difference_type tr) /\
     bits dm (traits_difference_type tr) = bits dm i) /\
  (is_pointer T = true ->
     traits_difference_type tr = ptrdiff_t dm /\
     bits dm (traits_difference_type tr) = pointer_bits dm).
Proof.
  unfold instantiate. rewrite iterator_category_cases.
  intros Hinst Hcat.
  destruct (difference_type dm T) as [D|] eqn:HD; [|discriminate].
  cbn in Hinst. injection Hinst as <-. cbn in *.
  destruct T as [i | f | p | c]; cbn in Hcat.
  - rewrite difference_type_integral in HD.
    destruct (make_signed_spec dm i D HD) as (_ & _ & Hs & Hb).
    split; [assumption|]. split.
    + intros i' [= <-]. split; assumption.
    + discriminate.
  - discriminate.
  - rewrite difference_type_other in HD by reflexivity.
    injection HD as <-. destruct (ptrdiff_t_spec dm) as [Hs Hb].
    split; [assumption|]. split.
    + discriminate.
    + intros _. split; [reflexivity | assumption].
  - destruct (class_pre_dec c) as [[]|]; discriminate.
Qed.

Lemma C3_difference_type_signed_witness :
  signed_integer_type t_short = true /\
  (forall i, integral_type t_unsigned_short = integral_type i ->
     make_signed LLP64 i = Some t_short /\ bits LLP64 t_short = bits LLP64 i) /\
  (is_pointer (integral_type t_unsigned_short) = true ->
     t_short = ptrdiff_t LLP64 /\ bits LLP64 t_short = pointer_bits LLP64).
Proof.
  exact (C3_difference_type_signed LLP64 (integral_type t_unsigned_short)
           {| traits_difference_type := t_short;
              traits_iterator_category := random_access_iterator_tag |}
           eq_refl eq_refl).
Defined.

(** The class [up_down_counter] of the tests, whose prefix [--] returns a
    reference, is granted the bidirectional category. *)
Example up_down_counter_is_bidirectional :
  iterator_category up_down_counter = Some bidirectional_iterator_tag.
Proof. reflexivity. Qed.

(** C4, at the failing input. The type supports prefix increment,
    equality and prefix decrement, and is neither integral nor a pointer,
    so the three-step procedure makes it Bidirectional; the category the
    code deduces is [forward_iterator_tag], because [__has_prefix_dec]
    asks for a non-void [--x]. *)
Theorem C4_void_decrement_is_forward :
  has_pre_inc void_decrement = true /\
  has_equal void_decrement = true /\
  has_pre_dec void_decrement = true /\
  is_integral void_decrement || is_pointer void_decrement = false /\
  call_with_nullptr (__has_prefix_dec void_decrement) = Some false /\
  iterator_category void_decrement = Some forward_iterator_tag /\
  (forall dm, earlier_value_iterator_traits.iterator_category dm void_decrement
              = Some forward_iterator_tag).
Proof. repeat split. Qed.

End Traits.

(** ** The gated interface *)

Section Interface.
Import interface.

Lemma enable_if_iff_tier (category : iterator_tag) (o : operation) :
  enable_if category o = true <->
  (tier_rank (tier_needed o) <= tier_rank (tier_of category))%nat.
Proof. destruct category, o; cbn; split; (reflexivity || discriminate || lia). Qed.

Lemma required_tier (category : iterator_tag) (o : operation) :
  required category o = true ->
  (tier_rank (tier_needed o) <= tier_rank (tier_of category))%nat.
Proof. destruct category, o; cbn; (discriminate || lia). Qed.

Lemma has_operator_tier (dm : data_model) (it : iterator) (o : operation)
    (category : iterator_tag) :
  iterator_category dm it = Some category ->
  has_operator dm it o = true ->
  (tier_rank (tier_needed o) <= tier_rank (tier_of category))%nat.
Proof.
  intros Hcat Hop. destruct it; cbn [has_operator] in Hop.
  - rewrite Hcat in Hop. apply enable_if_iff_tier, Hop.
  - destruct o; (discriminate || cbn; lia).
  - destruct o; (discriminate || cbn; lia).
  - rewrite Hcat in Hop. apply enable_if_iff_tier, Hop.
  - rewrite Hcat in Hop. apply enable_if_iff_tier, Hop.
  - injection Hcat as <-. apply required_tier, Hop.
Qed.


(** C9. An operator above the tier of an iterator type does not take part
    in overload resolution, so calling it is an error of the compiler (no
    run-time check is involved: the operators of the embedding are total
    functions).  In particular a [value_iterator] over a class with no
    prefix decrement has none of the decrement and offset operators. *)
Theorem C9_operator_above_tier_is_compile_error :
  (forall (dm : data_model) (it : iterator) (o : operation)
          (category : iterator_tag),
      iterator_category dm it = Some category ->
      (tier_rank (tier_of category) < tier_rank (tier_needed o))%nat ->
      call dm it o = compile_error) /\
  (forall (dm : data_model) (c : class_type) (o : operation),
      class_pre_dec c = None ->
      tier_needed o <> Forward ->
      call dm (value_iterator (user_type c)) o = compile_error).
Proof.
  split.
  - intros dm it o category Hcat Hlt. unfold call.
    destruct (has_operator dm it o) eqn:Hop; [|reflexivity].
    pose proof (has_operator_tier dm it o category Hcat Hop). lia.
  - intros dm c o Hdec Ho. unfold call.
    cbn [has_operator iterator_category].
    unfold value_iterator_traits.instantiate.
    rewrite difference_type_other by reflexivity.
    rewrite iterator_category_cases. cbn. rewrite Hdec.
    destruct o; try reflexivity; contradiction Ho; reflexivity.
Qed.

Lemma C9_operator_above_tier_is_compile_error_witness :
  call LLP64 (count_iterator (value_iterator up_counter)) op_pre_dec
    = compile_error /\
  call LLP64 (value_iterator up_counter) op_add_assign = compile_error.
Proof.
  split.
  - apply (proj1 C9_operator_above_tier_is_compile_error LLP64 _ _
             forward_iterator_tag); [reflexivity | cbn; lia].
  - apply (proj2 C9_operator_above_tier_is_compile_error LLP64);
      [reflexivity | discriminate].
Defined.

End Interface.

(** ** [value_iterator] over the built-in scalar types *)

Section ValueIteratorArithmetic.
Import value_iterator_traits Scalar.

Lemma integral_offset_distance (dm : data_model) (i D : integral) (x d : Z) :
  make_signed dm i = Some D ->
  in_range dm D d ->
  difference dm (of_integral i) D (add_assign dm (of_integral i) D x d) x = d.
Proof.
  intros HD Hd.
  destruct (make_signed_spec dm i D HD) as (Hi & HDb & Hs & Hb).
  pose proof (bits_pos dm i) as Hpos.
  unfold difference, add_assign.
  rewrite compound_add by assumption.
  rewrite <- (convert_in_range dm D d Hd) at 2.
  apply convert_cong; [assumption|].
  rewrite Hb.
  rewrite binary_sub_eqm
    by (pose proof (common_type_bits_l dm i i); lia).
  rewrite Zminus_mod, convert_eqm by (assumption || lia).
  rewrite <- Zminus_mod. f_equal. lia.
Qed.

Lemma pointer_offset_distance (dm : data_model) (size x d : Z) :
  0 < size ->
  in_range dm (ptrdiff_t dm) d ->
  in_range dm (ptrdiff_t dm) (d * size) ->
  difference dm (of_pointer size) (ptrdiff_t dm)
    (add_assign dm (of_pointer size) (ptrdiff_t dm) x d) x = d.
Proof.
  intros Hsize Hd Hoff.
  destruct (ptrdiff_t_spec dm) as [Hs Hb].
  assert (0 < pointer_bits dm) as Hpos by (destruct dm; reflexivity).
  unfold difference, add_assign, pointer_diff, pointer_add.
  rewrite (wrap_signed_cong _ _ (d * size)).
  - rewrite wrap_signed_small.
    + rewrite Z.quot_mul by lia. apply convert_in_range, Hd.
    + assumption.
    + rewrite <- Hb. apply signed_in_range; assumption.
  - rewrite Zminus_mod. unfold wrap_unsigned. rewrite Zmod_mod.
    rewrite <- Zminus_mod. f_equal. lia.
Qed.

(** C8. For an integral or pointer element type [T] and a value [d] of
    its difference type (on which the pointer arithmetic is defined):
    [(cursor + d) - cursor] is exactly [d], and [cursor[d]] is
    [*(cursor + d)]. *)
Theorem C8_offset_then_distance
    (dm : data_model) (T : type) (tr : traits) (s : scalar) (x d : Z) :
  instantiate dm T = Some tr ->
  of_type T = Some s ->
  offset_defined dm s (traits_difference_type tr) d ->
  traits_iterator_category tr = random_access_iterator_tag /\
  value_iterator.operator_distance
    (Off := offsettable dm s (traits_difference_type tr))
    (value_iterator.operator_plus
       (Off := offsettable dm s (traits_difference_type tr))
       (value_iterator.construct x) d)
    (value_iterator.construct x) = d /\
  value_iterator.operator_index
    (Off := offsettable dm s (traits_difference_type tr))
    (value_iterator.construct x) d
  = value_iterator.operator_star
      (value_iterator.operator_plus
         (Off := offsettable dm s (traits_difference_type tr))
         (value_iterator.construct x) d).
Proof.
  unfold instantiate. rewrite iterator_category_cases.
  intros Hinst Hs [Hd Hoff].
  destruct (difference_type dm T) as [D|] eqn:HD; [|discriminate].
  cbn in Hinst. injection Hinst as <-. cbn in *.
  destruct T as [i | f | [size | | |] | c]; try discriminate;
    injection Hs as <-; (split; [reflexivity|]); (split; [|reflexivity]).
  - rewrite difference_type_integral in HD.
    apply integral_offset_distance; assumption.
  - rewrite difference_type_other in HD by reflexivity.
    injection HD as <-. destruct Hoff as [Hsize Hoff].
    apply pointer_offset_distance; assumption.
Qed.

Lemma C8_offset_then_distance_witness :
  random_access_iterator_tag = random_access_iterator_tag /\
  value_iterator.operator_distance
    (Off := offsettable LLP64 (of_integral t_unsigned_int) t_int)
    (value_iterator.operator_plus
       (Off := offsettable LLP64 (of_integral t_unsigned_int) t_int)
       (value_iterator.construct 5) (-7))
    (value_iterator.construct 5) = -7 /\
  value_iterator.operator_index
    (Off := offsettable LLP64 (of_integral t_unsigned_int) t_int)
    (value_iterator.construct 5) (-7)
  = value_iterator.operator_star
      (value_iterator.operator_plus
         (Off := offsettable LLP64 (of_integral t_unsigned_int) t_int)
         (value_iterator.construct 5) (-7)).
Proof.
  apply (C8_offset_then_distance LLP64 (integral_type t_unsigned_int)
           {| traits_difference_type := t_int;
              traits_iterator_category := random_access_iterator_tag |}
           (of_integral t_unsigned_int) 5 (-7)).
  - reflexivity.
  - reflexivity.
  - split; [|exact I]. unfold in_range. cbn. lia.
Defined.

(** The unsigned cursor of the tests: [*(urand_test - i) == 0u-i]. *)
Example unsigned_minus_wraps :
  value_iterator.operator_star
    (value_iterator.operator_minus
       (Off := offsettable LLP64 (of_integral t_unsigned_int) t_int)
       (value_iterator.construct 0) 7)
  = 4294967289.
Proof. reflexivity. Qed.

End ValueIteratorArithmetic.

(** ** [count_iterator] *)

Section CountIterator.
Import count_iterator.

Lemma count_t_spec (dm : data_model) :
  count_t dm <> t_bool /\
  signed_integer_type (count_t dm) = true /\
  common_type dm (promote dm (count_t dm)) (promote dm (count_t dm))
    = count_t dm.
Proof. destruct dm; repeat split; discriminate. Qed.

Lemma compare_counts (dm : data_model) (rel : Z -> Z -> bool) (j k : Z) :
  in_range dm (count_t dm) j -> in_range dm (count_t dm) k ->
  compare dm rel (count_t dm) j (count_t dm) k = rel j k.
Proof.
  intros Hj Hk. unfold compare.
  destruct (count_t_spec dm) as (_ & _ & ->).
  rewrite !convert_in_range by assumption. reflexivity.
Qed.

Lemma distance_counts (dm : data_model) (D : integral) {I : Type}
    (a b : count_iterator I) :
  in_range dm (count_t dm) (count a) -> in_range dm (count_t dm) (count b) ->
  operator_distance dm D a b
  = convert dm D (convert dm (count_t dm) (count a - count b)).
Proof.
  intros Ha Hb. unfold operator_distance, binary. cbn [snd].
  destruct (count_t_spec dm) as (_ & _ & ->).
  rewrite (convert_in_range dm _ (count a)),
    (convert_in_range dm _ (count b)) by assumption.
  reflexivity.
Qed.

(** C5, as the claim states it, fails: the distance is returned in the
    wrapped iterator's difference type.  Over a
    [value_iterator<unsigned char>], whose difference type is
    [signed char], two cursors at counts 300 and 0 are 44 apart. *)
Lemma C5_distance_is_narrowed :
  value_iterator_traits.difference_type LP64 (integral_type t_unsigned_char)
    = Some t_signed_char /\
  in_range LP64 (count_t LP64) 300 /\
  operator_distance LP64 t_signed_char
    (construct (value_iterator.construct 0) 300)
    (construct (value_iterator.construct 0) 0) = 44 /\
  operator_distance LP64 t_signed_char
    (construct (value_iterator.construct 0) 300)
    (construct (value_iterator.construct 0) 0)
  <> count (construct (value_iterator.construct 0) 300)
     - count (construct (value_iterator.construct 0) 0).
Proof.
  split; [reflexivity|]. split; [unfold in_range; cbn; lia|].
  split; [reflexivity | discriminate].
Qed.

(** C5, amended. Equality, the four relational comparisons and the
    distance of two counting cursors are functions of the two stored
    counts alone: [a == b] iff the counts are equal, the comparisons
    compare the counts, and [a - b] is the difference of the counts
    converted to the difference type of the wrapped iterator, which is
    that difference whenever the difference type can hold it.  Cursors
    built from different inner cursors at one count are equal, cursors
    built from one inner cursor at two counts are not. *)
Theorem C5_comparisons_by_count
    (dm : data_model) (D : integral) {I : Type} (a b : count_iterator I) :
  in_range dm (count_t dm) (count a) ->
  in_range dm (count_t dm) (count b) ->
  (operator_equal dm a b = true <-> count a = count b) /\
  (operator_not_equal dm a b = true <-> count a <> count b) /\
  (operator_less dm a b = true <-> count a < count b) /\
  (operator_less_equal dm a b = true <-> count a <= count b) /\
  (operator_greater dm a b = true <-> count a > count b) /\
  (operator_greater_equal dm a b = true <-> count a >= count b) /\
  operator_distance dm D a b
    = convert dm D (convert dm (count_t dm) (count a - count b)) /\
  (in_range dm (count_t dm) (count a - count b) ->
   in_range dm D (count a - count b) ->
   operator_distance dm D a b = count a - count b) /\
  (forall i1 i2 : I,
      operator_equal dm (construct i1 (count a)) (construct i2 (count b))
        = operator_equal dm a b /\
      operator_less dm (construct i1 (count a)) (construct i2 (count b))
        = operator_less dm a b /\
      operator_less_equal dm (construct i1 (count a)) (construct i2 (count b))
        = operator_less_equal dm a b /\
      operator_greater dm (construct i1 (count a)) (construct i2 (count b))
        = operator_greater dm a b /\
      operator_greater_equal dm (construct i1 (count a)) (construct i2 (count b))
        = operator_greater_equal dm a b /\
      operator_distance dm D (construct i1 (count a)) (construct i2 (count b))
        = operator_distance dm D a b) /\
  (forall i1 i2 : I,
      operator_equal dm (construct i1 (count a)) (construct i2 (count a))
        = true) /\
  (forall i : I,
      count a <> count b ->
      operator_equal dm (construct i (count a)) (construct i (count b))
        = false).
Proof.
  intros Ha Hb.
  unfold operator_equal, operator_not_equal, operator_less,
    operator_less_equal, operator_greater, operator_greater_equal.
  cbn [construct count].
  rewrite !compare_counts by assumption.
  split; [apply Z.eqb_eq|].
  split; [rewrite negb_true_iff; apply Z.eqb_neq|].
  split; [apply Z.ltb_lt|].
  split; [apply Z.leb_le|].
  split; [rewrite Z.gtb_ltb, Z.ltb_lt; lia|].
  split; [rewrite Z.geb_leb, Z.leb_le; lia|].
  split; [apply distance_counts; assumption|].
  split.
  { intros Hc Hd. rewrite distance_counts by assumption.
    rewrite (convert_in_range dm (count_t dm)) by assumption.
    apply convert_in_range, Hd. }
  split; [intros; repeat split|].
  split; [intros; apply Z.eqb_refl|].
  intros _ Hne. apply Z.eqb_neq, Hne.
Qed.

Lemma C5_comparisons_by_count_witness :
  (operator_equal LP64 (construct 7%nat 3) (construct 9%nat 3) = true
     <-> 3 = 3) /\
  operator_distance LP64 t_int (construct 7%nat 14) (construct 7%nat 0) = 14.
Proof.
  assert (in_range LP64 (count_t LP64) 14) as H14 by (unfold in_range; cbn; lia).
  assert (in_range LP64 (count_t LP64) 3) as H3 by (unfold in_range; cbn; lia).
  assert (in_range LP64 (count_t LP64) 0) as H0 by (unfold in_range; cbn; lia).
  split.
  - apply (C5_comparisons_by_count LP64 t_int
             (construct 7%nat 3) (construct 9%nat 3) H3 H3).
  - apply (C5_comparisons_by_count LP64 t_int
             (construct 7%nat 14) (construct 7%nat 0) H14 H0);
      unfold in_range; cbn; lia.
Defined.

(** *** The counter moves with the wrapped iterator *)

Section Lockstep.
Variable dm : data_model.
Variable D : integral.
Context {W I A : Type}.
Context `{It : Iterator W I A} `{Bi : BidirectionalIterator W I}
        `{Ra : RandomAccessIterator W I A}.

Lemma step_spec (m : move) (c : count_iterator I) (w : W) :
  step dm D m c w
  = ({| iter := fst (inner_step m (iter c) w);
        count := convert dm (count_t dm) (count c + advance m) |},
     snd (inner_step m (iter c) w)).
Proof.
  destruct (count_t_spec dm) as (Hct & _ & _).
  destruct m; cbn [step inner_step advance];
    unfold operator_post_inc, operator_post_dec,
      operator_plus, operator_plus_left, operator_minus,
      operator_pre_inc, operator_pre_dec,
      operator_add_assign, operator_sub_assign;
    cbn [iter count];
    rewrite ?compound_add, ?compound_sub by assumption.
  - destruct (iter_pre_inc _ _); reflexivity.
  - destruct (iter_pre_inc _ _); reflexivity.
  - destruct (iter_pre_dec _ _); reflexivity.
  - destruct (iter_pre_dec _ _); reflexivity.
  - destruct (iter_add_assign _ _ _); reflexivity.
  - destruct (iter_sub_assign _ _ _); reflexivity.
  - destruct (iter_add_assign _ _ _); reflexivity.
  - destruct (iter_add_assign _ _ _); reflexivity.
  - destruct (iter_sub_assign _ _ _); reflexivity.
Qed.

Lemma run_spec (ms : list move) (c : count_iterator I) (w : W) :
  in_range dm (count_t dm) (count c) ->
  run dm D ms c w
  = ({| iter := fst (inner_run ms (iter c) w);
        count := convert dm (count_t dm) (count c + net_advance ms) |},
     snd (inner_run ms (iter c) w)).
Proof.
  destruct (count_t_spec dm) as (Hct & Hsigned & _).
  revert c w. induction ms as [|m ms IH]; intros c w Hc.
  - cbn. rewrite Z.add_0_r, convert_in_range by assumption.
    destruct c; reflexivity.
  - cbn [run inner_run net_advance fold_right].
    rewrite step_spec.
    destruct (inner_step m (iter c) w) as [i1 w1]. cbn [fst snd].
    rewrite IH.
    + cbn [iter count]. f_equal. f_equal.
      apply convert_cong; [assumption|].
      rewrite Zplus_mod, convert_eqm
        by (assumption || (pose proof (bits_pos dm (count_t dm)); lia)).
      rewrite <- Zplus_mod. f_equal.
      fold (net_advance ms). lia.
    + cbn [count]. apply signed_in_range; [assumption|].
      apply convert_signed_range; assumption.
Qed.
End Lockstep.

(** C6. Every positional operation of a counting cursor (both
    increments, both decrements, [+=], [-=] and the offsets [+] and [-])
    applies the same operation to the wrapped iterator and moves the
    counter by as much:
    after any sequence of them, from any state, the wrapped iterator is
    where the same sequence takes it, and the counter has changed by the
    net advance of the sequence (as a [count_t]). *)
Theorem C6_counter_in_lockstep
    (dm : data_model) (D : integral) {W I A : Type}
    `{It : Iterator W I A} `{Bi : BidirectionalIterator W I}
    `{Ra : RandomAccessIterator W I A}
    (ms : list move) (c : count_iterator I) (w : W) :
  in_range dm (count_t dm) (count c) ->
  iter (fst (run dm D ms c w)) = fst (inner_run ms (iter c) w) /\
  snd (run dm D ms c w) = snd (inner_run ms (iter c) w) /\
  count (fst (run dm D ms c w))
    = convert dm (count_t dm) (count c + net_advance ms) /\
  (in_range dm (count_t dm) (count c + net_advance ms) ->
   count (fst (run dm D ms c w)) - count c = net_advance ms).
Proof.
  intros Hc. rewrite run_spec by assumption. cbn [fst snd iter count].
  repeat split.
  intros Hn. rewrite convert_in_range by assumption. lia.
Qed.

End CountIterator.

Lemma C6_counter_in_lockstep_witness :
  in_range LP64 (count_iterator.count_t LP64) 0 /\
  count_iterator.count
    (fst (count_iterator.run LP64 t_int
            (It := int_iterator) (Bi := int_bidirectional)
            (Ra := int_random_access)
            [count_iterator.pre_inc; count_iterator.add_assign 5;
             count_iterator.post_dec; count_iterator.sub_assign 2]
            (count_iterator.construct (value_iterator.construct 12) 0) tt))
  = 3 /\
  value_iterator.data
    (count_iterator.iter
       (fst (count_iterator.run LP64 t_int
               (It := int_iterator) (Bi := int_bidirectional)
               (Ra := int_random_access)
               [count_iterator.pre_inc; count_iterator.add_assign 5;
                count_iterator.post_dec; count_iterator.sub_assign 2]
               (count_iterator.construct (value_iterator.construct 12) 0) tt)))
  = 15.
Proof.
  assert (in_range LP64 (count_iterator.count_t LP64) 0) as H0
    by (unfold in_range; cbn; lia).
  split; [exact H0|].
  destruct (C6_counter_in_lockstep LP64 t_int
              (It := int_iterator) (Bi := int_bidirectional)
              (Ra := int_random_access)
              [count_iterator.pre_inc; count_iterator.add_assign 5;
               count_iterator.post_dec; count_iterator.sub_assign 2]
              (count_iterator.construct (value_iterator.construct 12) 0) tt H0)
    as (Hiter & _ & Hcount & _).
  split.
  - rewrite Hcount. reflexivity.
  - rewrite Hiter. reflexivity.
Defined.

(** ** [mapping_iterator] *)

Section MappingIterator.
Import mapping_iterator.

(** [operator->] stores the dereferenced value as it is. *)
Lemma operator_arrow_pointee {W I A B : Type}
    `{It : Iterator W I A} `{As : AssignableFrom B A}
    (m : mapping_iterator I A B) (w : W) :
  pointee (operator_arrow m w) = Some (assign_from (iter_star (iter m) w)).
Proof. reflexivity. Qed.

(** C1, at the failing input. On [m_1], whose transform gives 15 and
    whose inner cursor is at 1, [operator->] leaves 1 in
    [temp_mapped_value] and returns its address: the pointee is the
    inner value, not the transform of it, which [operator*] gives. *)
Theorem C1_arrow_skips_the_transform :
  pointee (operator_arrow (It := int_iterator) m_1 tt) = Some 1 /\
  operator_star (It := int_iterator) m_1 tt = 15 /\
  pointee (operator_arrow (It := int_iterator) m_1 tt)
  <> Some (operator_star (It := int_iterator) m_1 tt).
Proof. repeat split. discriminate. Qed.

(** C7. A dereference of a mapping cursor is the transform applied to
    what the wrapped iterator yields in the memory as it is at that
    moment; nothing the cursor holds is consulted, also not the slot an
    earlier [operator->] has filled.  So after a store through an
    iterator of a vector, a mapping cursor at the same position gives
    the transform of the stored value. *)
Theorem C7_dereference_is_not_cached :
  (forall (W I A B : Type) (It : Iterator W I A)
          (m : mapping_iterator I A B) (w : W),
      operator_star m w
      = assignable_func.func (func m) (iter_star (iter m) w)) /\
  (forall (W I A B : Type) (It : Iterator W I A) (As : AssignableFrom B A)
          (m : mapping_iterator I A B) (w1 w2 : W),
      operator_star (operator_arrow m w1) w2 = operator_star m w2) /\
  (forall (f : Z -> Z) (v : list Z) (i : nat) (x : Z),
      (i < length v)%nat ->
      operator_star (It := std_vector.vector_iterator)
        (construct i f) (std_vector.store i x v) = f x).
Proof.
  split; [reflexivity|]. split; [reflexivity|].
  intros f v i x Hi. unfold operator_star, construct. cbn.
  unfold std_vector.star, std_vector.store.
  rewrite (nth_lookup_Some _ _ _ x); [reflexivity|].
  apply list_lookup_insert_eq, Hi.
Qed.

(** The loop of the tests on the vector [4, 5, ...]: [*map_raw += 7]
    between two dereferences of [map_iter_1]. *)
Lemma C7_dereference_is_not_cached_witness :
  operator_star (It := std_vector.vector_iterator)
    (construct 0%nat square) [4; 5; 6] = 16 /\
  operator_star (It := std_vector.vector_iterator)
    (construct 0%nat square) (std_vector.store 0%nat 11 [4; 5; 6])
  = square 11.
Proof.
  split; [reflexivity|].
  apply (proj2 (proj2 C7_dereference_is_not_cached) square [4; 5; 6] 0%nat 11).
  cbn. lia.
Defined.

End MappingIterator.

(** ** [func_iterator] *)

Section FuncIterator.
Import func_iterator.
Context {W F V : Type} `{Fn : Callable W F V}.

Lemma construct_spec (f : F) (w : W) :
  construct f w
  = ({| _value := fst (fst (invoke f w));
        func := assignable_func.construct (snd (fst (invoke f w))) |},
     snd (invoke f w)).
Proof.
  unfold construct, assignable_func.operator_call. cbn.
  destruct (invoke f w) as [[v f'] w']. reflexivity.
Qed.

Lemma operator_pre_inc_spec (it : func_iterator F V) (w : W) :
  operator_pre_inc it w
  = ({| _value := fst (fst (invoke (assignable_func.func (func it)) w));
        func := assignable_func.construct
                  (snd (fst (invoke (assignable_func.func (func it)) w))) |},
     snd (invoke (assignable_func.func (func it)) w)).
Proof.
  unfold operator_pre_inc, assignable_func.operator_call.
  destruct (invoke _ w) as [[v f'] w']. reflexivity.
Qed.

(** A postfix increment does to the cursor what a prefix one does, and
    returns the cursor as it was. *)
Lemma operator_post_inc_spec (it : func_iterator F V) (w : W) :
  operator_post_inc it w
  = (it, fst (operator_pre_inc it w), snd (operator_pre_inc it w)).
Proof.
  unfold operator_post_inc, operator_pre_inc, copy_construct,
    assignable_func.operator_call.
  destruct (invoke _ w) as [[v f'] w']. destruct it. reflexivity.
Qed.

Lemma increments_spec (n : nat) (f : F) (w : W) :
  increments n (fst (construct f w)) (snd (construct f w))
  = ({| _value := fst (fst (invocation n f w));
        func := assignable_func.construct (snd (fst (invocation n f w))) |},
     snd (invocation n f w)).
Proof.
  rewrite construct_spec. cbn [fst snd].
  revert f w. induction n as [|n IH]; intros f w.
  - reflexivity.
  - cbn [increments invocation].
    rewrite operator_pre_inc_spec. cbn [fst snd _value func
      assignable_func.func assignable_func.construct].
    destruct (invoke f w) as [[v f'] w'] eqn:Hinv. cbn [fst snd].
    specialize (IH f' w').
    destruct (invoke f' w') as [[v2 f2] w2] eqn:Hinv2. cbn [fst snd] in *.
    exact IH.
Qed.

End FuncIterator.

(** C2. Constructing a [func_iterator] from a callable invokes the stored
    callable once and caches what it gives, so the first dereference is the
    first value produced; each increment invokes it once more and
    overwrites the cache: after [n] increments the cache holds the value of
    invocation [n + 1], and the stored callable and the memory are those
    after exactly [n + 1] invocations (a callable that counts its
    invocations has counted [n + 1]).  A postfix increment does the same
    to the cursor and returns it as it was. *)
Theorem C2_cache_follows_the_callable :
  forall (W F V : Type) (Fn : Callable W F V) (f : F) (w : W) (n : nat),
    func_iterator.operator_star (fst (func_iterator.construct f w))
      = fst (fst (invoke f w)) /\
    (forall it : func_iterator.func_iterator F V,
        func_iterator.operator_post_inc it w
        = (it, fst (func_iterator.operator_pre_inc it w),
               snd (func_iterator.operator_pre_inc it w))) /\
    func_iterator.operator_star
      (fst (func_iterator.increments n
              (fst (func_iterator.construct f w))
              (snd (func_iterator.construct f w))))
      = fst (fst (func_iterator.invocation n f w)) /\
    assignable_func.func
      (func_iterator.func
         (fst (func_iterator.increments n
                 (fst (func_iterator.construct f w))
                 (snd (func_iterator.construct f w)))))
      = snd (fst (func_iterator.invocation n f w)) /\
    snd (func_iterator.increments n
           (fst (func_iterator.construct f w))
           (snd (func_iterator.construct f w)))
      = snd (func_iterator.invocation n f w) /\
    snd (assignable_func.func
           (func_iterator.func
              (fst (func_iterator.increments (Fn := func_iterator.counted) n
                      (fst (func_iterator.construct
                              (Fn := func_iterator.counted) (f, O) w))
                      (snd (func_iterator.construct
                              (Fn := func_iterator.counted) (f, O) w))))))
      = S n.
Proof.
  intros W F V Fn f w n.
  split; [rewrite construct_spec; reflexivity|].
  split; [intros it; apply operator_post_inc_spec|].
  rewrite !increments_spec. cbn [fst snd func_iterator._value
    func_iterator.func assignable_func.func assignable_func.construct
    func_iterator.operator_star].
  repeat split.
  enough (forall k,
             snd (snd (fst (func_iterator.invocation
                              (Fn := func_iterator.counted) n (f, k) w)))
             = S (n + k)) as Hcount
    by (rewrite Hcount; f_equal; apply Nat.add_0_r).
  revert f w. induction n as [|n IH]; intros f w k.
  - cbn. destruct (invoke f w) as [[v f'] w']. reflexivity.
  - cbn [func_iterator.invocation]. cbn [invoke func_iterator.counted fst snd].
    destruct (invoke f w) as [[v f'] w'].
    rewrite (IH f' w' (S k)). f_equal. apply Nat.add_succ_r.
Qed.

(** The cursor of squares of the tests, [1, 4, 9, 16, ...]. *)
Example squares_fourth :
  func_iterator.operator_star
    (fst (func_iterator.increments (Fn := squares) 3
            (fst (func_iterator.construct (Fn := squares) 0 tt))
            tt))
  = 16.
Proof. reflexivity. Qed.

(** ** Copies of a [func_iterator] *)

Section Objects.
Import objects.
Context {W F V : Type} `{Fn : Callable W F V}.

Lemma copy_construct_id (o : func_iterator.func_iterator F V) :
  func_iterator.copy_construct o = o.
Proof. destruct o. reflexivity. Qed.

Lemma operator_assign_id (t o : func_iterator.func_iterator F V) :
  func_iterator.operator_assign t o = o.
Proof. destruct t as [vt [ft]], o as [vo [fo]]. reflexivity. Qed.

(** One increment changes the object at [this] and no other. *)
Lemma increment_other (postfix : bool) (this other : positive)
    (h h' : gmap positive (func_iterator.func_iterator F V)) (w w' : W) :
  this <> other ->
  (if postfix then operator_post_inc this h w
   else operator_pre_inc this h w) = Some (h', w') ->
  h' !! other = h !! other /\ is_Some (h' !! this).
Proof.
  intros Hne Hinc.
  unfold operator_post_inc, operator_pre_inc in Hinc.
  destruct (h !! this) as [t|] eqn:Ht;
    [|destruct postfix; cbn in Hinc; discriminate].
  cbn [mbind option_bind] in Hinc.
  destruct postfix.
  - destruct (func_iterator.operator_post_inc t w) as [[cpy t'] w1].
    injection Hinc as <- <-.
    rewrite lookup_insert_ne by assumption.
    rewrite lookup_insert_eq. eauto.
  - destruct (func_iterator.operator_pre_inc t w) as [t' w1].
    injection Hinc as <- <-.
    rewrite lookup_insert_ne by assumption.
    rewrite lookup_insert_eq. eauto.
Qed.

Lemma increment_is_Some (postfix : bool) (this : positive)
    (h : gmap positive (func_iterator.func_iterator F V)) (w : W) :
  is_Some (h !! this) ->
  is_Some (if postfix then operator_post_inc this h w
           else operator_pre_inc this h w).
Proof.
  intros [t Ht]. unfold operator_post_inc, operator_pre_inc.
  rewrite Ht. cbn [mbind option_bind]. destruct postfix.
  - destruct (func_iterator.operator_post_inc t w) as [[cpy t'] w1]. eauto.
  - destruct (func_iterator.operator_pre_inc t w) as [t' w1]. eauto.
Qed.

(** Any number of increments of the object at [this] goes through and
    leaves every other object as it was. *)
Lemma increments_frame (postfix : list bool) (this other : positive)
    (h : gmap positive (func_iterator.func_iterator F V)) (w : W) :
  this <> other ->
  is_Some (h !! this) ->
  exists h' w', increments postfix this h w = Some (h', w') /\
                h' !! other = h !! other.
Proof.
  intros Hne. revert h w.
  induction postfix as [|p ps IH]; intros h w Hthis.
  - exists h, w. split; reflexivity.
  - cbn [increments].
    destruct (increment_is_Some p this h w Hthis) as [[h1 w1] Hinc].
    rewrite Hinc. cbn.
    destruct (increment_other p this other h h1 w w1 Hne Hinc)
      as [Hother Hthis1].
    destruct (IH h1 w1 Hthis1) as (h' & w' & Hrun & Hframe).
    exists h', w'. split; [assumption|]. congruence.
Qed.

(** C10. A [func_iterator] made from another by the copy constructor,
    or assigned from another, is a separate object holding a copy of the
    cache and of the callable: incrementing either of the two any number
    of times, prefix or postfix, leaves the cached value and the stored
    callable of the other as they were. *)
Theorem C10_copies_are_independent
    (h : gmap positive (func_iterator.func_iterator F V))
    (a : positive) (w : W) (postfix : list bool) :
  is_Some (h !! a) ->
  (exists b h1,
      copy_construct a h = Some (b, h1) /\
      b <> a /\ h1 !! b = h !! a /\ h1 !! a = h !! a /\
      (exists h2 w2, increments postfix a h1 w = Some (h2, w2) /\
                     h2 !! b = h1 !! b) /\
      (exists h2 w2, increments postfix b h1 w = Some (h2, w2) /\
                     h2 !! a = h1 !! a)) /\
  (forall b, b <> a -> is_Some (h !! b) ->
     exists h1,
       operator_assign b a h = Some h1 /\
       h1 !! b = h !! a /\ h1 !! a = h !! a /\
       (exists h2 w2, increments postfix a h1 w = Some (h2, w2) /\
                      h2 !! b = h1 !! b) /\
       (exists h2 w2, increments postfix b h1 w = Some (h2, w2) /\
                      h2 !! a = h1 !! a)).
Proof.
  intros [o Ho]. split.
  - assert (fresh (dom h) <> a) as Hfresh.
    { intros Heq. apply (is_fresh (dom h)). rewrite Heq.
      apply elem_of_dom. eauto. }
    exists (fresh (dom h)), (<[ fresh (dom h) := o ]> h).
    unfold copy_construct. rewrite Ho. cbn. rewrite copy_construct_id.
    split; [reflexivity|]. split; [assumption|].
    split; [apply lookup_insert_eq|].
    split; [rewrite lookup_insert_ne by assumption; exact Ho|].
    split; apply increments_frame; try congruence.
    + rewrite lookup_insert_ne by assumption. eauto.
    + rewrite lookup_insert_eq. eauto.
  - intros b Hne [t Ht].
    exists (<[ b := o ]> h).
    unfold operator_assign. rewrite Ht, Ho. cbn. rewrite operator_assign_id.
    split; [reflexivity|].
    split; [apply lookup_insert_eq|].
    split; [rewrite lookup_insert_ne by assumption; exact Ho|].
    split; apply increments_frame; try congruence.
    + rewrite lookup_insert_ne by assumption. eauto.
    + rewrite lookup_insert_eq. eauto.
Qed.

End Objects.

Lemma C10_copies_are_independent_witness :
  exists b h1,
    objects.copy_construct 1%positive
      {[ 1%positive := fst (func_iterator.construct (Fn := counter) 0 tt) ]}
    = Some (b, h1) /\
    exists h2 w2,
      objects.increments (Fn := counter) [false; true; false] 1%positive h1 tt
      = Some (h2, w2) /\
      h2 !! b = h1 !! b.
Proof.
  destruct (C10_copies_are_independent (Fn := counter)
              {[ 1%positive := fst (func_iterator.construct (Fn := counter) 0 tt) ]}
              1%positive tt [false; true; false])
    as [(b & h1 & Hcopy & _ & _ & _ & Hinc & _) _].
  - rewrite lookup_singleton_eq. eauto.
  - exists b, h1. split; [exact Hcopy | exact Hinc].
Defined.

(* ===================================================================== *)
(** * Further properties of the header                                    *)
(* ===================================================================== *)

(** ** What [value_iterator_traits] deduces *)

Section MoreTraits.
Import value_iterator_traits.



(** X2. The category is random access exactly for the integral and the
    pointer types: never for a floating-point type or a class, whatever
    operators it has; [+=] plays no part.  Below that it is bidirectional
    exactly when [--x] is well-formed with a type other than [void]. *)
Theorem category_by_kind_of_type (T : type) :
  (iterator_category T = Some random_access_iterator_tag
   <-> is_integral T || is_pointer T = true) /\
  (iterator_category T = Some bidirectional_iterator_tag
   <-> is_integral T || is_pointer T = false /\
       decltype_pre_dec T = Some yields_value) /\
  (iterator_category T = Some forward_iterator_tag
   <-> is_integral T || is_pointer T = false /\
       decltype_pre_dec T <> Some yields_value) /\
  (forall c b, iterator_category
                 (user_type {| class_pre_inc := class_pre_inc c;
                               class_equal := class_equal c;
                               class_pre_dec := class_pre_dec c;
                               class_add_assign := b |})
               = iterator_category (user_type c)).
Proof.
  split; [|split; [|split]].
  4: { intros c b. rewrite !iterator_category_cases. reflexivity. }
  all: rewrite iterator_category_cases;
    destruct (is_integral T || is_pointer T);
    destruct (decltype_pre_dec T) as [[]|];
    intuition congruence.
Qed.

(** X3. The earlier revision of the traits deduces the same category for
    every type; its difference type is [T] itself for an integral [T],
    [std::ptrdiff_t] for a pointer and [void] for anything else, and no
    call in its overload set of three is ambiguous. *)
Theorem earlier_revision_deduction (dm : data_model) (T : type) :
  earlier_value_iterator_traits.iterator_category dm T = iterator_category T /\
  earlier_value_iterator_traits.difference_type dm T
  = Some match T with
         | integral_type i => earlier_value_iterator_traits.d_integral i
         | pointer_type _ =>
             earlier_value_iterator_traits.d_integral (ptrdiff_t dm)
         | _ => earlier_value_iterator_traits.d_void
         end.
Proof.
  split; [apply earlier_iterator_category_cases|].
  destruct T; reflexivity.
Qed.

End MoreTraits.

Section MoreInterface.
Import interface.



End MoreInterface.

(** ** [value_iterator] over the scalar types, continued *)

Section MoreValueIterator.
Import Scalar.

Lemma convert_add_l (dm : data_model) (i : integral) (a b : Z) :
  i <> t_bool -> convert dm i (convert dm i a + b) = convert dm i (a + b).
Proof.
  intros Hi. apply convert_cong; [assumption|].
  pose proof (bits_pos dm i).
  rewrite Zplus_mod, convert_eqm by (assumption || lia).
  rewrite <- Zplus_mod. reflexivity.
Qed.

Lemma convert_sub_l (dm : data_model) (i : integral) (a b : Z) :
  i <> t_bool -> convert dm i (convert dm i a - b) = convert dm i (a - b).
Proof.
  intros Hi. apply convert_cong; [assumption|].
  pose proof (bits_pos dm i).
  rewrite Zminus_mod, convert_eqm by (assumption || lia).
  rewrite <- Zminus_mod. reflexivity.
Qed.

Lemma pointer_add_add (dm : data_model) (size x d e : Z) :
  pointer_add dm size (pointer_add dm size x d) e
  = wrap_unsigned (pointer_bits dm) (x + (d + e) * size).
Proof.
  unfold pointer_add, wrap_unsigned.
  rewrite Zplus_mod_idemp_l. f_equal. lia.
Qed.

Lemma pointer_add_0 (dm : data_model) (size x : Z) :
  0 <= x < 2 ^ pointer_bits dm ->
  wrap_unsigned (pointer_bits dm) (x + 0 * size) = x.
Proof.
  intros Hx. unfold wrap_unsigned. rewrite Z.mul_0_l, Z.add_0_r.
  apply Z.mod_small, Hx.
Qed.

(** X5. On an integral or pointer element, a decrement undoes an
    increment and an increment a decrement, and [-= d] undoes [+= d], for
    every stored value and every [d] (a wrap-around on the way is undone
    as well). *)
Theorem value_iterator_round_trips
    (dm : data_model) (s : scalar) (dt : integral) (x d : Z) :
  scalar_value dm s x ->
  value_iterator.operator_pre_dec (Dec := decrementable dm s)
    (value_iterator.operator_pre_inc (Inc := incrementable dm s)
       (value_iterator.construct x))
  = value_iterator.construct x /\
  value_iterator.operator_pre_inc (Inc := incrementable dm s)
    (value_iterator.operator_pre_dec (Dec := decrementable dm s)
       (value_iterator.construct x))
  = value_iterator.construct x /\
  value_iterator.operator_sub_assign (Off := offsettable dm s dt)
    (value_iterator.operator_add_assign (Off := offsettable dm s dt)
       (value_iterator.construct x) d) d
  = value_iterator.construct x /\
  value_iterator.operator_minus (Off := offsettable dm s dt)
    (value_iterator.operator_plus (Off := offsettable dm s dt)
       (value_iterator.construct x) d) d
  = value_iterator.construct x.
Proof.
  intros Hx.
  unfold value_iterator.operator_minus, value_iterator.operator_plus,
    value_iterator.operator_sub_assign, value_iterator.operator_add_assign,
    value_iterator.operator_pre_dec, value_iterator.operator_pre_inc,
    value_iterator.construct.
  cbn [value_iterator.data elem_pre_inc elem_pre_dec elem_add_assign
       elem_sub_assign incrementable decrementable offsettable].
  destruct s as [i | size]; cbn [scalar_value] in Hx;
    unfold pre_inc, pre_dec, add_assign, sub_assign.
  - destruct Hx as [Hi Hx].
    rewrite !compound_add, !compound_sub by assumption.
    rewrite convert_sub_l, convert_add_l, !convert_sub_l by assumption.
    replace (x + 1 - 1) with x by lia.
    replace (x - 1 + 1) with x by lia.
    replace (x + d - d) with x by lia.
    rewrite convert_in_range by assumption. repeat split.
  - rewrite !pointer_add_add.
    replace (1 + -1) with 0 by lia.
    replace (-1 + 1) with 0 by lia.
    replace (d + - d) with 0 by lia.
    rewrite pointer_add_0 by assumption. repeat split.
Qed.

Lemma value_iterator_round_trips_witness :
  value_iterator.operator_sub_assign
    (Off := offsettable LLP64 (of_integral t_unsigned_int) t_int)
    (value_iterator.operator_add_assign
       (Off := offsettable LLP64 (of_integral t_unsigned_int) t_int)
       (value_iterator.construct 5) (-7)) (-7)
  = value_iterator.construct 5.
Proof.
  apply (value_iterator_round_trips LLP64 (of_integral t_unsigned_int) t_int
           5 (-7)).
  split; [discriminate | unfold in_range; cbn; lia].
Defined.

(** X6. Stepping is offsetting: [n] increments in a row leave what
    [+= n] leaves, and [n] decrements what [-= n] leaves. *)
Theorem value_iterator_steps_are_an_offset
    (dm : data_model) (s : scalar) (dt : integral) (x : Z) (n : nat) :
  scalar_value dm s x ->
  Nat.iter n (value_iterator.operator_pre_inc (Inc := incrementable dm s))
    (value_iterator.construct x)
  = value_iterator.operator_add_assign (Off := offsettable dm s dt)
      (value_iterator.construct x) (Z.of_nat n) /\
  Nat.iter n (value_iterator.operator_pre_dec (Dec := decrementable dm s))
    (value_iterator.construct x)
  = value_iterator.operator_sub_assign (Off := offsettable dm s dt)
      (value_iterator.construct x) (Z.of_nat n).
Proof.
  intros Hx.
  unfold value_iterator.operator_sub_assign,
    value_iterator.operator_add_assign, value_iterator.construct.
  cbn [value_iterator.data elem_add_assign elem_sub_assign offsettable].
  induction n as [|n [IHinc IHdec]].
  - cbn [Nat.iter nat_rect]. unfold add_assign, sub_assign.
    change (Z.of_nat 0) with 0. change (- 0) with 0.
    destruct s as [i | size]; cbn [scalar_value] in Hx.
    + destruct Hx as [Hi Hx].
      rewrite compound_add, compound_sub by assumption.
      rewrite Z.add_0_r, Z.sub_0_r, convert_in_range by assumption.
      split; reflexivity.
    + unfold pointer_add.
      rewrite pointer_add_0 by assumption. split; reflexivity.
  - rewrite !Nat.iter_succ, IHinc, IHdec.
    unfold value_iterator.operator_pre_inc, value_iterator.operator_pre_dec.
    cbn [value_iterator.data elem_pre_inc elem_pre_dec
         incrementable decrementable].
    unfold pre_inc, pre_dec, add_assign, sub_assign.
    destruct s as [i | size]; cbn [scalar_value] in Hx.
    + destruct Hx as [Hi Hx].
      rewrite !compound_add, !compound_sub by assumption.
      rewrite convert_add_l, convert_sub_l by assumption.
      split; do 2 f_equal; lia.
    + rewrite !pointer_add_add. unfold pointer_add.
      split; do 2 f_equal; lia.
Qed.

Lemma value_iterator_steps_are_an_offset_witness :
  Nat.iter 3 (value_iterator.operator_pre_inc
                (Inc := incrementable LLP64 (of_pointer 4)))
    (value_iterator.construct 4096)
  = value_iterator.operator_add_assign
      (Off := offsettable LLP64 (of_pointer 4) t_long_long)
      (value_iterator.construct 4096) (Z.of_nat 3).
Proof.
  apply (value_iterator_steps_are_an_offset LLP64 (of_pointer 4) t_long_long
           4096 3).
  cbn. lia.
Defined.

Lemma promote_in_range (dm : data_model) (i : integral) (z : Z) :
  in_range dm i z -> in_range dm (promote dm i) z.
Proof. unfold in_range. destruct dm, i; cbn; lia. Qed.

Lemma common_type_same (dm : data_model) (a : integral) :
  common_type dm a a = a.
Proof. unfold common_type. destruct a; reflexivity. Qed.

Lemma compare_values (dm : data_model) (rel : Z -> Z -> bool)
    (i : integral) (a b : Z) :
  in_range dm i a -> in_range dm i b ->
  compare dm rel i a i b = rel a b.
Proof.
  intros Ha Hb. unfold compare. rewrite common_type_same.
  rewrite !convert_in_range by (apply promote_in_range; assumption).
  reflexivity.
Qed.

Lemma relation_values (dm : data_model) (s : scalar) (rel : Z -> Z -> bool)
    (a b : Z) :
  scalar_value dm s a -> scalar_value dm s b ->
  relation dm s rel a b = rel a b.
Proof.
  destruct s as [i | size]; cbn; [|reflexivity].
  intros [_ Ha] [_ Hb]. apply compare_values; assumption.
Qed.

(** X7. The comparisons of two value cursors over an integral or pointer
    element are those of the stored values, as numbers: the promotions and
    conversions of the operands change no outcome, also not for the
    unsigned types. *)
Theorem value_iterator_compares_values
    (dm : data_model) (s : scalar) (dt : integral) (a b : Z) :
  scalar_value dm s a -> scalar_value dm s b ->
  (value_iterator.operator_equal (Inc := incrementable dm s)
     (value_iterator.construct a) (value_iterator.construct b) = true
   <-> a = b) /\
  (value_iterator.operator_not_equal (Inc := incrementable dm s)
     (value_iterator.construct a) (value_iterator.construct b) = true
   <-> a <> b) /\
  (value_iterator.operator_less (Off := offsettable dm s dt)
     (value_iterator.construct a) (value_iterator.construct b) = true
   <-> a < b) /\
  (value_iterator.operator_less_equal (Off := offsettable dm s dt)
     (value_iterator.construct a) (value_iterator.construct b) = true
   <-> a <= b) /\
  (value_iterator.operator_greater (Off := offsettable dm s dt)
     (value_iterator.construct a) (value_iterator.construct b) = true
   <-> b < a) /\
  (value_iterator.operator_greater_equal (Off := offsettable dm s dt)
     (value_iterator.construct a) (value_iterator.construct b) = true
   <-> b <= a).
Proof.
  intros Ha Hb.
  unfold value_iterator.operator_equal, value_iterator.operator_not_equal,
    value_iterator.operator_less, value_iterator.operator_less_equal,
    value_iterator.operator_greater, value_iterator.operator_greater_equal,
    value_iterator.construct.
  cbn [value_iterator.data elem_equal elem_less elem_less_equal elem_greater
       elem_greater_equal incrementable offsettable].
  rewrite !relation_values by assumption.
  split; [apply Z.eqb_eq|].
  split; [rewrite negb_true_iff; apply Z.eqb_neq|].
  split; [apply Z.ltb_lt|].
  split; [apply Z.leb_le|].
  split; [rewrite Z.gtb_ltb; apply Z.ltb_lt|].
  rewrite Z.geb_leb. apply Z.leb_le.
Qed.

Lemma value_iterator_compares_values_witness :
  value_iterator.operator_less
    (Off := offsettable LLP64 (of_integral t_unsigned_int) t_int)
    (value_iterator.construct 1) (value_iterator.construct 4294967295) = true
  <-> 1 < 4294967295.
Proof.
  apply (value_iterator_compares_values LLP64 (of_integral t_unsigned_int)
           t_int 1 4294967295);
    (split; [discriminate | unfold in_range; cbn; lia]).
Defined.

End MoreValueIterator.

(** ** Ranges and their traversal *)

Section ValueRange.
Import Scalar.
Context {W : Type}.

Lemma value_for_each (dm : data_model) (i : integral) (n : nat) :
  i <> t_bool ->
  forall (a : Z) (fuel : nat) (w : W),
    in_range dm i a -> in_range dm i (a + Z.of_nat n) -> (n < fuel)%nat ->
    std_algorithm.for_each
      (It := value_is_iterator (Inc := incrementable dm (of_integral i)))
      fuel (value_iterator.construct a)
      (value_iterator.construct (a + Z.of_nat n)) w
    = Some (seqZ a (Z.of_nat n), w).
Proof.
  intros Hi. induction n as [|n IH]; intros a fuel w Ha Hb Hfuel;
    (destruct fuel as [|fuel]; [lia|]); cbn [std_algorithm.for_each];
    cbn [iter_equal iter_star iter_pre_inc value_is_iterator];
    unfold value_iterator.operator_equal, value_iterator.operator_star,
      value_iterator.operator_pre_inc, value_iterator.construct;
    cbn [value_iterator.data elem_equal elem_pre_inc incrementable];
    rewrite relation_values by (split; assumption).
  - rewrite Z.add_0_r, Z.eqb_refl. reflexivity.
  - destruct (Z.eqb_spec a (a + Z.of_nat (S n))) as [Heq|_]; [lia|].
    unfold pre_inc. rewrite compound_add by assumption.
    assert (in_range dm i (a + 1)) as Ha1 by (unfold in_range in *; lia).
    rewrite convert_in_range by assumption.
    replace (a + Z.of_nat (S n)) with (a + 1 + Z.of_nat n) in * by lia.
    pose proof (IH (a + 1) fuel w Ha1 Hb ltac:(lia)) as Hrun.
    unfold value_iterator.construct in Hrun. rewrite Hrun.
    rewrite (seqZ_cons a (Z.of_nat (S n))) by lia. cbn.
    replace (Z.pred (Z.of_nat (S n))) with (Z.of_nat n) by lia.
    reflexivity.
Qed.

(** X8. A loop over [make_value_range(a, b)] on an integer type, with
    [a <= b], visits [a], [a + 1], ..., [b - 1] in this order and stops:
    [b - a] values, none when [a = b]. *)
Theorem value_range_traversal
    (dm : data_model) (i : integral) (a b : Z) (fuel : nat) (w : W) :
  i <> t_bool -> in_range dm i a -> in_range dm i b -> a <= b ->
  (Z.to_nat (b - a) < fuel)%nat ->
  iterator_range.for_each
    (It := value_is_iterator (Inc := incrementable dm (of_integral i)))
    fuel (iterator_range.make_value_range a b) w
  = Some (seqZ a (b - a), w).
Proof.
  intros Hi Ha Hb Hab Hfuel.
  unfold iterator_range.for_each, iterator_range.make_value_range.
  cbn [iterator_range._begin iterator_range._end].
  replace b with (a + Z.of_nat (Z.to_nat (b - a))) at 1 by lia.
  rewrite value_for_each; try assumption.
  - do 3 f_equal. lia.
  - replace (a + Z.of_nat (Z.to_nat (b - a))) with b by lia. assumption.
Qed.

End ValueRange.

Lemma value_range_traversal_witness :
  iterator_range.for_each (It := int_iterator) 9
    (iterator_range.make_value_range 4 12) tt
  = Some (seqZ 4 (12 - 4), tt).
Proof.
  apply (value_range_traversal LP64 t_int 4 12 9 tt);
    try discriminate; try (unfold in_range; cbn; lia); cbn; lia.
Defined.

(** ** [unary_func_iterator] *)

Section UnaryFuncIterator.
Import unary_func_iterator.
Context {W F V : Type} `{Un : UnaryCallable W F V}.

(** X9. Constructing a [unary_func_iterator] does not call the function:
    the first dereference is the initial value.  Each increment calls it
    once on the cached value, so after [n] increments the cursor holds the
    value, the function and the memory that [n] calls in a row leave; a
    postfix increment does the same and returns the cursor as it was. *)
Theorem unary_cursor_applies_the_callable (f : F) (v : V) (w : W) (n : nat) :
  operator_star (construct f v) = v /\
  increments n (construct f v) w
  = ({| value := fst (fst (applications n f v w));
        func := assignable_func.construct (snd (fst (applications n f v w))) |},
     snd (applications n f v w)) /\
  (forall it : unary_func_iterator F V,
      operator_post_inc it w
      = (it, fst (operator_pre_inc it w), snd (operator_pre_inc it w))).
Proof.
  split; [reflexivity|]. split.
  - unfold construct. revert f v w.
    induction n as [|n IH]; intros f v w; [reflexivity|].
    cbn [increments applications]. unfold operator_pre_inc.
    cbn [value func assignable_func.func assignable_func.construct].
    destruct (invoke_on f v w) as [[v1 f1] w1]. apply IH.
  - intros it. unfold operator_post_inc.
    destruct (operator_pre_inc it w) as [it1 w1]. destruct it. reflexivity.
Qed.

End UnaryFuncIterator.

(** ** Counting ranges *)

Section CountRange.
Import count_iterator.
Context {W I A : Type} `{It : Iterator W I A}.

Lemma count_for_each (dm : data_model) (n : nat) :
  forall (b e : I) (c : Z) (fuel : nat) (w : W),
    in_range dm (count_t dm) c ->
    in_range dm (count_t dm) (c + Z.of_nat n) ->
    (n < fuel)%nat ->
    std_algorithm.for_each (It := count_is_iterator dm) fuel
      (construct b c) (construct e (c + Z.of_nat n)) w
    = Some (std_algorithm.elements n b w).
Proof.
  destruct (count_t_spec dm) as (Hct & _ & _).
  induction n as [|n IH]; intros b e c fuel w Hc Hn Hfuel;
    (destruct fuel as [|fuel]; [lia|]);
    cbn [std_algorithm.for_each std_algorithm.elements];
    cbn [iter_equal iter_star iter_pre_inc count_is_iterator];
    unfold operator_equal, operator_star, operator_pre_inc, construct;
    cbn [iter count];
    rewrite compare_counts by assumption.
  - rewrite Z.add_0_r, Z.eqb_refl. reflexivity.
  - destruct (Z.eqb_spec c (c + Z.of_nat (S n))) as [Heq|_]; [lia|].
    rewrite compound_add by assumption.
    assert (in_range dm (count_t dm) (c + 1)) as Hc1
      by (unfold in_range in *; lia).
    rewrite convert_in_range by assumption.
    destruct (iter_pre_inc b w) as [b1 w1].
    replace (c + Z.of_nat (S n)) with (c + 1 + Z.of_nat n) in * by lia.
    pose proof (IH b1 e (c + 1) fuel w1 Hc1 Hn ltac:(lia)) as Hrun.
    unfold construct in Hrun. rewrite Hrun.
    destruct (std_algorithm.elements n b1 w1) as [l w2]. reflexivity.
Qed.

(** X10. A loop over [make_count_range(begin, n)] visits exactly the first
    [n] values of [begin], whatever [begin] is and whatever its own [==]
    says, as long as [n] is a value of the counter type; it dereferences and
    increments the wrapped iterator [n] times. *)
Theorem count_range_traversal
    (dm : data_model) (b : I) (n : Z) (fuel : nat) (w : W) :
  0 <= n -> in_range dm (count_t dm) n -> (Z.to_nat n < fuel)%nat ->
  iterator_range.for_each (It := count_is_iterator dm) fuel
    (iterator_range.make_count_range dm b n) w
  = Some (std_algorithm.elements (Z.to_nat n) b w).
Proof.
  intros Hn Hrange Hfuel.
  unfold iterator_range.for_each, iterator_range.make_count_range.
  cbn [iterator_range._begin iterator_range._end].
  rewrite convert_in_range by assumption.
  replace n with (0 + Z.of_nat (Z.to_nat n)) at 1 by lia.
  apply count_for_each; try assumption.
  - unfold in_range in *. destruct (count_t_spec dm) as (_ & Hs & _).
    destruct dm; cbn in *; lia.
  - replace (0 + Z.of_nat (Z.to_nat n)) with n by lia. assumption.
Qed.

(** X15. The count of [make_count_range] is a [std::size_t] and the
    counter a signed type of the same width: a count above the largest
    counter value makes an end cursor with a negative count, which compares
    less than the begin cursor. *)
Theorem count_range_of_a_huge_count (dm : data_model) (b : I) (n : Z) :
  max_value dm (count_t dm) < n <= max_value dm (size_t dm) ->
  count (iterator_range._end (iterator_range.make_count_range dm b n))
  = n - 2 ^ bits dm (size_t dm) /\
  count (iterator_range._end (iterator_range.make_count_range dm b n)) < 0 /\
  operator_less dm
    (iterator_range._end (iterator_range.make_count_range dm b n))
    (iterator_range._begin (iterator_range.make_count_range dm b n)) = true /\
  operator_equal dm
    (iterator_range._begin (iterator_range.make_count_range dm b n))
    (iterator_range._end (iterator_range.make_count_range dm b n)) = false.
Proof.
  intros Hn.
  unfold iterator_range.make_count_range.
  cbn [iterator_range._begin iterator_range._end construct count].
  assert (convert dm (count_t dm) n = n - 2 ^ bits dm (size_t dm)) as Hconv.
  { destruct dm; cbn in *; unfold wrap_signed;
      rewrite <- (Z.mod_add _ (-1)) by lia;
      rewrite Z.mod_small by lia; lia. }
  assert (n - 2 ^ bits dm (size_t dm) < 0) as Hneg
    by (destruct dm; cbn in *; lia).
  assert (in_range dm (count_t dm) (n - 2 ^ bits dm (size_t dm))) as Hr
    by (unfold in_range; destruct dm; cbn in *; lia).
  assert (in_range dm (count_t dm) 0) as H0
    by (unfold in_range; destruct dm; cbn; lia).
  unfold operator_less, operator_equal. cbn [count]. rewrite Hconv.
  rewrite !compare_counts by assumption.
  repeat split; try assumption.
  - apply Z.ltb_lt, Hneg.
  - apply Z.eqb_neq. cbn [count construct]. lia.
Qed.

End CountRange.

Lemma count_range_traversal_witness :
  iterator_range.for_each
    (It := count_is_iterator LP64 (It := std_vector.vector_iterator)) 4
    (iterator_range.make_count_range LP64 1%nat 2) [4; 5; 6; 7]
  = Some (std_algorithm.elements (It := std_vector.vector_iterator)
            (Z.to_nat 2) 1%nat [4; 5; 6; 7]).
Proof.
  apply (count_range_traversal (It := std_vector.vector_iterator) LP64
           1%nat 2 4 [4; 5; 6; 7]);
    [lia | unfold in_range; cbn; lia | cbn; lia].
Defined.

Lemma count_range_of_a_huge_count_witness :
  count_iterator.count
    (iterator_range._end
       (iterator_range.make_count_range LP64 1%nat 18446744073709551615))
  = 18446744073709551615 - 2 ^ bits LP64 (size_t LP64).
Proof.
  apply (count_range_of_a_huge_count LP64 1%nat 18446744073709551615).
  cbn. lia.
Defined.

(** ** A counting range over a generator *)

Section FuncCountRange.
Import func_iterator.
Context {W F V : Type} `{Fn : Callable W F V}.
Variable eqV : V -> V -> bool.

Lemma invocation_succ (k : nat) (f : F) (w : W) :
  invocation (S k) f w
  = invocation k (snd (fst (invoke f w))) (snd (invoke f w)).
Proof. cbn [invocation]. destruct (invoke f w) as [[v f1] w1]. reflexivity. Qed.

Lemma pre_inc_is_construct (v : V) (f : F) (w : W) :
  operator_pre_inc {| _value := v; func := assignable_func.construct f |} w
  = construct f w.
Proof. reflexivity. Qed.

Lemma func_elements (n : nat) :
  forall (f : F) (w : W),
    std_algorithm.elements (It := func_is_iterator eqV) n
      (fst (construct f w)) (snd (construct f w))
    = (List.map (fun k => fst (fst (invocation k f w))) (seq 0 n),
       snd (invocation n f w)).
Proof.
  induction n as [|n IH]; intros f w.
  - cbn. unfold construct, assignable_func.operator_call. cbn.
    destruct (invoke f w) as [[v f1] w1]. reflexivity.
  - cbn [std_algorithm.elements iter_star iter_pre_inc func_is_iterator].
    rewrite invocation_succ.
    cbn [seq List.map]. rewrite <- seq_shift, List.map_map.
    rewrite (List.map_ext
               (fun k => fst (fst (invocation (S k) f w)))
               (fun k => fst (fst (invocation k (snd (fst (invoke f w)))
                                     (snd (invoke f w))))))
      by (intros k; rewrite invocation_succ; reflexivity).
    change (invocation 0 f w) with (invoke f w).
    unfold construct at 1 2 3, assignable_func.operator_call.
    cbn [assignable_func.func assignable_func.construct].
    destruct (invoke f w) as [[v f1] w1]. cbn [fst snd].
    rewrite pre_inc_is_construct.
    specialize (IH f1 w1).
    destruct (construct f1 w1) as [it2 w2]. cbn [fst snd] in IH.
    rewrite IH. reflexivity.
Qed.

(** X11. A loop over [make_count_range(make_func_iterator(f), n)] visits
    the first [n] results of [f], in order, whatever [==] on the results
    says; by then [f] has been called [n + 1] times: once by the
    constructor and once by each increment, the last result being
    computed and never visited. *)
Theorem count_range_over_a_generator
    (dm : data_model) (f : F) (n : Z) (fuel : nat) (w : W) :
  0 <= n -> in_range dm (count_iterator.count_t dm) n ->
  (Z.to_nat n < fuel)%nat ->
  iterator_range.for_each
    (It := count_is_iterator dm (It := func_is_iterator eqV)) fuel
    (iterator_range.make_count_range dm (fst (construct f w)) n)
    (snd (construct f w))
  = Some (List.map (fun k => fst (fst (invocation k f w)))
            (seq 0 (Z.to_nat n)),
          snd (invocation (Z.to_nat n) f w)).
Proof.
  intros Hn Hrange Hfuel.
  unfold iterator_range.for_each, iterator_range.make_count_range.
  cbn [iterator_range._begin iterator_range._end].
  rewrite convert_in_range by assumption.
  replace n with (0 + Z.of_nat (Z.to_nat n)) at 1 by lia.
  rewrite (count_for_each (It := func_is_iterator eqV)).
  - rewrite func_elements. reflexivity.
  - unfold in_range in *.
    destruct dm; cbn in *; lia.
  - replace (0 + Z.of_nat (Z.to_nat n)) with n by lia. assumption.
  - assumption.
Qed.

End FuncCountRange.

Lemma count_range_over_a_generator_witness :
  iterator_range.for_each
    (It := count_is_iterator LP64
             (It := func_is_iterator (Fn := squares) Z.eqb)) 11
    (iterator_range.make_count_range LP64
       (fst (func_iterator.construct (Fn := squares) 0 tt)) 10)
    (snd (func_iterator.construct (Fn := squares) 0 tt))
  = Some ([1; 4; 9; 16; 25; 36; 49; 64; 81; 100], tt).
Proof.
  apply (count_range_over_a_generator (Fn := squares) Z.eqb LP64 0 10 11 tt);
    [lia | unfold in_range; cbn; lia | cbn; lia].
Defined.

(** ** Mapped ranges *)

Section MappedRange.
Import mapping_iterator.
Context {W I A B : Type} `{It : Iterator W I A} `{As : AssignableFrom B A}.

Lemma mapping_for_each (f : A -> B) (fuel : nat) :
  forall (b e : I) (t1 t2 : option B) (w : W),
    std_algorithm.for_each (It := mapping_is_iterator) fuel
      {| iter := b; func := assignable_func.construct f;
         temp_mapped_value := t1 |}
      {| iter := e; func := assignable_func.construct f;
         temp_mapped_value := t2 |} w
    = prod_map (List.map f) id <$> std_algorithm.for_each fuel b e w.
Proof.
  induction fuel as [|fuel IH]; intros b e t1 t2 w; [reflexivity|].
  cbn [std_algorithm.for_each].
  cbn [iter_equal iter_star iter_pre_inc mapping_is_iterator].
  unfold operator_equal, operator_star, operator_pre_inc,
    assignable_func.operator_call1.
  cbn [iter func temp_mapped_value assignable_func.func
       assignable_func.construct].
  destruct (iter_equal b e); [reflexivity|].
  destruct (iter_pre_inc b w) as [b1 w1].
  rewrite IH.
  destruct (std_algorithm.for_each fuel b1 e w1) as [[l w2]|]; reflexivity.
Qed.

Lemma accumulate_for_each {T : Type} (op : T -> A -> T) (fuel : nat) :
  forall (b e : I) (init : T) (w : W),
    std_algorithm.accumulate fuel b e init op w
    = prod_map (fun l => fold_left op l init) id
        <$> std_algorithm.for_each fuel b e w.
Proof.
  induction fuel as [|fuel IH]; intros b e init w; [reflexivity|].
  cbn [std_algorithm.for_each std_algorithm.accumulate].
  destruct (iter_equal b e); [reflexivity|].
  destruct (iter_pre_inc b w) as [b1 w1].
  rewrite IH.
  destruct (std_algorithm.for_each fuel b1 e w1) as [[l w2]|]; reflexivity.
Qed.

End MappedRange.

(** X12. Mapping a range commutes with going through it: a loop over
    [r.map(f)], or over [map_range(r, f)], ends exactly when the loop over
    [r] does, moves the wrapped iterators as that loop does, and visits the
    images under [f] of the values that loop visits; mapping twice visits
    the images under the composed function. *)
Theorem map_commutes_with_traversal
    {W I A B C : Type} `{It : Iterator W I A}
    `{As : AssignableFrom B A} `{As' : AssignableFrom C B}
    (f : A -> B) (g : B -> C)
    (r : iterator_range.iterator_range I I) (fuel : nat) (w : W) :
  iterator_range.for_each (It := mapping_iterator.mapping_is_iterator)
    fuel (iterator_range.map f r) w
  = prod_map (List.map f) id <$> iterator_range.for_each fuel r w /\
  iterator_range.for_each (It := mapping_iterator.mapping_is_iterator)
    fuel (iterator_range.map_range r f) w
  = iterator_range.for_each (It := mapping_iterator.mapping_is_iterator)
      fuel (iterator_range.map f r) w /\
  iterator_range.for_each
    (It := mapping_iterator.mapping_is_iterator
             (It := mapping_iterator.mapping_is_iterator))
    fuel (iterator_range.map g (iterator_range.map f r)) w
  = prod_map (List.map (fun a => g (f a))) id
      <$> iterator_range.for_each fuel r w.
Proof.
  unfold iterator_range.for_each, iterator_range.map,
    iterator_range.map_range, iterator_range.begin, iterator_range.end_,
    mapping_iterator.construct.
  cbn [iterator_range._begin iterator_range._end].
  split; [|split].
  - apply mapping_for_each.
  - reflexivity.
  - rewrite (mapping_for_each (It := mapping_iterator.mapping_is_iterator) g).
    rewrite mapping_for_each.
    destruct (std_algorithm.for_each fuel _ _ w) as [[l w1]|]; [|reflexivity].
    cbn. rewrite List.map_map. reflexivity.
Qed.

Section MappedValueRange.
Import Scalar.
Context {W B T : Type} `{As : AssignableFrom B Z}.

(** X13. [make_value_range(a, b).map(f).accumulate(init, op)] on an
    integer type, with [a <= b], is the left fold of [op] from [init] over
    [f a], [f (a + 1)], ..., [f (b - 1)], and [init] itself when
    [a = b]. *)
Theorem accumulate_over_a_mapped_value_range
    (dm : data_model) (i : integral) (a b : Z) (f : Z -> B)
    (init : T) (op : T -> B -> T) (fuel : nat) (w : W) :
  i <> t_bool -> in_range dm i a -> in_range dm i b -> a <= b ->
  (Z.to_nat (b - a) < fuel)%nat ->
  iterator_range.accumulate
    (It := mapping_iterator.mapping_is_iterator
             (It := value_is_iterator
                      (Inc := incrementable dm (of_integral i))))
    fuel (iterator_range.map f (iterator_range.make_value_range a b))
    init op w
  = Some (fold_left op (List.map f (seqZ a (b - a))) init, w).
Proof.
  intros Hi Ha Hb Hab Hfuel.
  unfold iterator_range.accumulate, iterator_range.map,
    iterator_range.make_value_range, mapping_iterator.construct.
  cbn [iterator_range._begin iterator_range._end].
  rewrite accumulate_for_each, mapping_for_each.
  replace b with (a + Z.of_nat (Z.to_nat (b - a))) at 1 by lia.
  rewrite value_for_each; try assumption.
  - cbn. rewrite Z2Nat.id by lia. reflexivity.
  - replace (a + Z.of_nat (Z.to_nat (b - a))) with b by lia. assumption.
Qed.

End MappedValueRange.

Lemma accumulate_over_a_mapped_value_range_witness :
  iterator_range.accumulate
    (It := mapping_iterator.mapping_is_iterator (It := int_iterator))
    11 (iterator_range.map square (iterator_range.make_value_range 1 11))
    0 int_plus tt
  = Some (385, tt).
Proof.
  apply (accumulate_over_a_mapped_value_range LP64 t_int 1 11 square
           0 int_plus 11 tt);
    try discriminate; try (unfold in_range; cbn; lia); cbn; lia.
Defined.

(** ** Comparing counting cursors that started together *)

Section CountAdvance.
Import count_iterator.
Context {W I A : Type}.
Context `{It : Iterator W I A} `{Bi : BidirectionalIterator W I}
        `{Ra : RandomAccessIterator W I A}.

(** X14. Two counting cursors moved from the same start, by any two
    sequences of positional operations and whatever these do to the
    wrapped iterators, are equal exactly when the two sequences advance by
    the same net amount, and the one that advanced less is the lesser,
    as long as both counts stay in the counter type. *)
Theorem count_cursors_compare_by_net_advance
    (dm : data_model) (D : integral) (ms1 ms2 : list move)
    (c : count_iterator I) (w1 w2 : W) :
  in_range dm (count_t dm) (count c) ->
  in_range dm (count_t dm) (count c + net_advance ms1) ->
  in_range dm (count_t dm) (count c + net_advance ms2) ->
  operator_equal dm (fst (run dm D ms1 c w1)) (fst (run dm D ms2 c w2))
  = (net_advance ms1 =? net_advance ms2) /\
  operator_not_equal dm (fst (run dm D ms1 c w1)) (fst (run dm D ms2 c w2))
  = negb (net_advance ms1 =? net_advance ms2) /\
  operator_less dm (fst (run dm D ms1 c w1)) (fst (run dm D ms2 c w2))
  = (net_advance ms1 <? net_advance ms2) /\
  operator_greater_equal dm
    (fst (run dm D ms1 c w1)) (fst (run dm D ms2 c w2))
  = (net_advance ms1 >=? net_advance ms2).
Proof.
  intros Hc H1 H2.
  rewrite !run_spec by assumption. cbn [fst].
  unfold operator_equal, operator_not_equal, operator_less,
    operator_greater_equal.
  cbn [count].
  rewrite !convert_in_range by assumption.
  rewrite !compare_counts by assumption.
  repeat split.
  - destruct (Z.eqb_spec (count c + net_advance ms1)
                (count c + net_advance ms2)),
      (Z.eqb_spec (net_advance ms1) (net_advance ms2)); lia || reflexivity.
  - f_equal.
    destruct (Z.eqb_spec (count c + net_advance ms1)
                (count c + net_advance ms2)),
      (Z.eqb_spec (net_advance ms1) (net_advance ms2)); lia || reflexivity.
  - destruct (Z.ltb_spec (count c + net_advance ms1)
                (count c + net_advance ms2)),
      (Z.ltb_spec (net_advance ms1) (net_advance ms2)); lia || reflexivity.
  - rewrite !Z.geb_leb.
    destruct (Z.leb_spec (count c + net_advance ms2)
                (count c + net_advance ms1)),
      (Z.leb_spec (net_advance ms2) (net_advance ms1)); lia || reflexivity.
Qed.

End CountAdvance.

Lemma count_cursors_compare_by_net_advance_witness :
  count_iterator.operator_equal LP64
    (fst (count_iterator.run LP64 t_int
            (It := int_iterator) (Bi := int_bidirectional)
            (Ra := int_random_access)
            [count_iterator.pre_inc; count_iterator.add_assign 5]
            (count_iterator.construct (value_iterator.construct 12) 0) tt))
    (fst (count_iterator.run LP64 t_int
            (It := int_iterator) (Bi := int_bidirectional)
            (Ra := int_random_access)
            [count_iterator.plus 7; count_iterator.post_dec]
            (count_iterator.construct (value_iterator.construct 12) 0) tt))
  = (count_iterator.net_advance
       [count_iterator.pre_inc; count_iterator.add_assign 5]
     =? count_iterator.net_advance
          [count_iterator.plus 7; count_iterator.post_dec]).
Proof.
  apply (count_cursors_compare_by_net_advance
           (It := int_iterator) (Bi := int_bidirectional)
           (Ra := int_random_access) LP64 t_int
           [count_iterator.pre_inc; count_iterator.add_assign 5]
           [count_iterator.plus 7; count_iterator.post_dec]
           (count_iterator.construct (value_iterator.construct 12) 0) tt tt);
    unfold in_range; cbn; lia.
Defined.

(** ** A counting range over a unary generator *)

Section UnaryCountRange.
Import unary_func_iterator.
Context {W F V : Type} `{Un : UnaryCallable W F V}.
Variable eqV : V -> V -> bool.

Lemma applications_succ (k : nat) (f : F) (v : V) (w : W) :
  applications (S k) f v w
  = applications k (snd (fst (invoke_on f v w)))
      (fst (fst (invoke_on f v w))) (snd (invoke_on f v w)).
Proof.
  cbn [applications]. destruct (invoke_on f v w) as [[v1 f1] w1]. reflexivity.
Qed.

Lemma unary_elements (n : nat) :
  forall (f : F) (v : V) (w : W),
    std_algorithm.elements (It := unary_is_iterator eqV) n (construct f v) w
    = (List.map (fun k => fst (fst (applications k f v w))) (seq 0 n),
       snd (applications n f v w)).
Proof.
  induction n as [|n IH]; intros f v w; [reflexivity|].
  cbn [std_algorithm.elements iter_star iter_pre_inc unary_is_iterator].
  rewrite applications_succ.
  cbn [seq List.map]. rewrite <- seq_shift, List.map_map.
  rewrite (List.map_ext
             (fun k => fst (fst (applications (S k) f v w)))
             (fun k => fst (fst (applications k
                                   (snd (fst (invoke_on f v w)))
                                   (fst (fst (invoke_on f v w)))
                                   (snd (invoke_on f v w))))))
    by (intros k; rewrite applications_succ; reflexivity).
  unfold operator_pre_inc, operator_star, construct.
  cbn [value func assignable_func.func assignable_func.construct].
  change (applications 0 f v w) with (v, f, w).
  destruct (invoke_on f v w) as [[v1 f1] w1]. cbn [fst snd].
  pose proof (IH f1 v1 w1) as Hrun. unfold construct in Hrun.
  unfold assignable_func.construct in Hrun. rewrite Hrun. reflexivity.
Qed.

(** X16. A loop over
    [make_count_range(make_unary_func_iterator(f, v), n)] visits [v] and
    then what each further call of [f] makes of it, [n] values in all,
    and by then [f] has been called exactly [n] times: the last value
    computed is never visited. *)
Theorem count_range_over_a_unary_generator
    (dm : data_model) (f : F) (v : V) (n : Z) (fuel : nat) (w : W) :
  0 <= n -> in_range dm (count_iterator.count_t dm) n ->
  (Z.to_nat n < fuel)%nat ->
  iterator_range.for_each
    (It := count_is_iterator dm (It := unary_is_iterator eqV)) fuel
    (iterator_range.make_count_range dm (construct f v) n) w
  = Some (List.map (fun k => fst (fst (applications k f v w)))
            (seq 0 (Z.to_nat n)),
          snd (applications (Z.to_nat n) f v w)).
Proof.
  intros Hn Hrange Hfuel.
  unfold iterator_range.for_each, iterator_range.make_count_range.
  cbn [iterator_range._begin iterator_range._end].
  rewrite convert_in_range by assumption.
  replace n with (0 + Z.of_nat (Z.to_nat n)) at 1 by lia.
  rewrite (count_for_each (It := unary_is_iterator eqV)).
  - rewrite unary_elements. reflexivity.
  - unfold in_range in *.
    destruct dm; cbn in *; lia.
  - replace (0 + Z.of_nat (Z.to_nat n)) with n by lia. assumption.
  - assumption.
Qed.

End UnaryCountRange.

Lemma count_range_over_a_unary_generator_witness :
  iterator_range.for_each
    (It := count_is_iterator LP64
             (It := unary_is_iterator (Un := increment) Z.eqb)) 11
    (iterator_range.make_count_range LP64
       (unary_func_iterator.construct tt 1) 10) tt
  = Some ([1; 2; 3; 4; 5; 6; 7; 8; 9; 10], tt).
Proof.
  apply (count_range_over_a_unary_generator (Un := increment) Z.eqb
           LP64 tt 1 10 11 tt);
    [lia | unfold in_range; cbn; lia | cbn; lia].
Defined.
